(** * Real-time transport and call signaling of the Vibgyor client

    A shallow embedding of
    - [src/services/enhancedSocketService.js] (module [Socket]),
    - [src/pages/EnhancedChatPage.jsx]        (module [ChatPage]),
    - [src/components/Call/EnhancedVideoCall.jsx] (module [VideoCall]),
    together with the properties of the design document that concern them.
    The modules [Lifecycle], [ChatPageView] and [VideoCallControls] embed
    more of the same three files, for the further properties at the end.

    JavaScript objects become records, [Map]s become [gmap]s, a [Set] of
    callbacks becomes a duplicate-free list in insertion order, and code that
    mutates [this] or React state is written in a small state-and-exception
    monad.  Console output has no effect on the program and is left out. *)

From Stdlib Require Import Ascii String List ZArith QArith Lia.
From Stdlib Require Import DecimalString DecimalNat.
From stdpp Require Import base option list gmap strings.
Import ListNotations.
Local Open Scope string_scope.
Local Open Scope list_scope.

(** ** A state monad with JavaScript exceptions

    A computation runs on a mutable store [S] and completes normally with a
    value or abruptly with a thrown error.  The store is returned in both
    cases: mutations made before a [throw] stay visible, as in JavaScript. *)
Module Js.

Inductive completion (A : Type) : Type :=
| Normal (a : A)
| Throw (e : string)
| Diverges.          (* a loop that used up its fuel *)
Arguments Normal {A} a.
Arguments Throw {A} e.
Arguments Diverges {A}.

Definition M (S A : Type) : Type := S -> completion A * S.

Definition ret {S A} (a : A) : M S A := fun s => (Normal a, s).

Definition bind {S A B} (m : M S A) (k : A -> M S B) : M S B :=
  fun s =>
    match m s with
    | (Normal a, s') => k a s'
    | (Throw e, s') => (Throw e, s')
    | (Diverges, s') => (Diverges, s')
    end.

Definition throw {S A} (e : string) : M S A := fun s => (Throw e, s).

(** [try { m } catch (e) { h e }] *)
Definition try_catch {S A} (m : M S A) (h : string -> M S A) : M S A :=
  fun s =>
    match m s with
    | (Normal a, s') => (Normal a, s')
    | (Throw e, s') => h e s'
    | (Diverges, s') => (Diverges, s')
    end.

Definition gets {S A} (f : S -> A) : M S A := fun s => (Normal (f s), s).
Definition modify {S} (f : S -> S) : M S unit := fun s => (Normal tt, f s).

(** [if (c) { m }] without an else branch *)
Definition when {S} (c : bool) (m : M S unit) : M S unit :=
  if c then m else ret tt.

(** [xs.forEach(x => body(x))]: an exception escaping [body] ends the loop. *)
Fixpoint forEach {S A} (xs : list A) (body : A -> M S unit) : M S unit :=
  match xs with
  | [] => ret tt
  | x :: xs' => bind (body x) (fun _ => forEach xs' body)
  end.

Definition exec {S A} (m : M S A) (s : S) : S := snd (m s).
Definition outcome {S A} (m : M S A) (s : S) : completion A := fst (m s).

Definition completes {S A} (m : M S A) (s : S) : Prop :=
  exists a, outcome m s = Normal a.

End Js.

Notation "'do' x <- m ; k" := (Js.bind m (fun x => k))
  (at level 10, x name, m at level 100, k at level 200).
Notation "m ;; k" := (Js.bind m (fun _ => k))
  (at level 100, k at level 200, right associativity).

(** [s.includes(sub)] on strings *)
Definition includes (s sub : string) : bool :=
  match String.index 0 sub s with
  | Some _ => true
  | None => false
  end.

(** ** Objects

    The objects that travel through the code (event payloads, results of the
    call service, the call records kept by the page) are duck-typed: one
    record with every field the code reads, where [None] is [undefined].
    Session descriptions and candidates are opaque and stand as strings. *)
Record obj : Type := Obj {
  success : bool;
  callId : option string;
  chatId : option string;
  type : option string;
  status : option string;
  otherUser : option string;
  otherParticipant : option string;
  isIncoming : option bool;
  timestamp : option N;
  offer : option string;
  answer : option string;
  candidate : option string;
  message : option string;
  reason : option string
}.

Global Instance obj_eq_dec : EqDecision obj.
Proof. solve_decision. Defined.

(** [{}] *)
Definition emptyObj : obj :=
  {| success := false; callId := None; chatId := None; type := None;
     status := None; otherUser := None; otherParticipant := None;
     isIncoming := None; timestamp := None; offer := None; answer := None;
     candidate := None; message := None; reason := None |}.

(** [{ ...o, status: v }] *)
Definition with_status (v : string) (o : obj) : obj :=
  {| success := success o; callId := callId o; chatId := chatId o;
     type := type o; status := Some v; otherUser := otherUser o;
     otherParticipant := otherParticipant o; isIncoming := isIncoming o;
     timestamp := timestamp o; offer := offer o; answer := answer o;
     candidate := candidate o; message := message o; reason := reason o |}.

(** [{ success: true }], what a request that went through resolves to *)
Definition acknowledged : obj :=
  {| success := true; callId := None; chatId := None; type := None;
     status := None; otherUser := None; otherParticipant := None;
     isIncoming := None; timestamp := None; offer := None; answer := None;
     candidate := None; message := None; reason := None |}.

(** [{ timestamp: new Date() }] and the like: an object the code under
    study reads no field of; the clock is left out. *)
Definition stamped : obj := emptyObj.

(** [{ reason, timestamp: new Date() }] *)
Definition becauseOf (why : string) : obj :=
  {| success := false; callId := None; chatId := None; type := None;
     status := None; otherUser := None; otherParticipant := None;
     isIncoming := None; timestamp := None; offer := None; answer := None;
     candidate := None; message := None; reason := Some why |}.

(** [{ chatId }] *)
Definition forChat (id : string) : obj :=
  {| success := false; callId := None; chatId := Some id; type := None;
     status := None; otherUser := None; otherParticipant := None;
     isIncoming := None; timestamp := None; offer := None; answer := None;
     candidate := None; message := None; reason := None |}.

(** Truthiness of a string-valued field: [undefined] and [''] are falsy. *)
Definition truthy (v : option string) : bool :=
  match v with
  | None | Some "" => false
  | Some _ => true
  end.

(** [a || b] on such values *)
Definition or_else (a b : option string) : option string :=
  if truthy a then a else b.

(** [error.message || fallback] *)
Definition message_or (msg fallback : string) : string :=
  match msg with
  | "" => fallback
  | _ => msg
  end.

Abbreviation payload := obj.

(** ** The transport channel: [enhancedSocketService.js] *)
Module Socket.
Import Js.

(** A listener is identified by its function object. *)
Definition callback : Type := nat.

Record service : Type := Service {
  socket : option nat;                          (* this.socket; None is null *)
  isConnected : bool;
  isConnecting : bool;
  reconnectAttempts : nat;
  eventListeners : gmap string (list callback); (* Map<string, Set<Function>> *)
  messageQueue : list (string * payload);
  storedWebRTCEvents : gmap string (list payload);
  heartbeatInterval : option N;                 (* period of the running timer, ms *)
  (* what the outside world observes *)
  wire : list (string * payload);               (* socket.emit(event, data) *)
  invoked : list (callback * payload)           (* callback(data) *)
}.

(** [new EnhancedSocketService()] *)
Definition constructor : service :=
  {| socket := None; isConnected := false; isConnecting := false;
     reconnectAttempts := 0; eventListeners := ∅; messageQueue := [];
     storedWebRTCEvents := ∅; heartbeatInterval := None;
     wire := []; invoked := [] |}.

Definition set_isConnected v (s : service) : service :=
  {| socket := socket s; isConnected := v; isConnecting := isConnecting s;
     reconnectAttempts := reconnectAttempts s; eventListeners := eventListeners s;
     messageQueue := messageQueue s; storedWebRTCEvents := storedWebRTCEvents s;
     heartbeatInterval := heartbeatInterval s; wire := wire s;
     invoked := invoked s |}.
Definition set_isConnecting v (s : service) : service :=
  {| socket := socket s; isConnected := isConnected s; isConnecting := v;
     reconnectAttempts := reconnectAttempts s; eventListeners := eventListeners s;
     messageQueue := messageQueue s; storedWebRTCEvents := storedWebRTCEvents s;
     heartbeatInterval := heartbeatInterval s; wire := wire s;
     invoked := invoked s |}.
Definition set_reconnectAttempts v (s : service) : service :=
  {| socket := socket s; isConnected := isConnected s;
     isConnecting := isConnecting s; reconnectAttempts := v;
     eventListeners := eventListeners s; messageQueue := messageQueue s;
     storedWebRTCEvents := storedWebRTCEvents s;
     heartbeatInterval := heartbeatInterval s; wire := wire s;
     invoked := invoked s |}.
Definition set_eventListeners v (s : service) : service :=
  {| socket := socket s; isConnected := isConnected s;
     isConnecting := isConnecting s; reconnectAttempts := reconnectAttempts s;
     eventListeners := v; messageQueue := messageQueue s;
     storedWebRTCEvents := storedWebRTCEvents s;
     heartbeatInterval := heartbeatInterval s; wire := wire s;
     invoked := invoked s |}.
Definition set_messageQueue v (s : service) : service :=
  {| socket := socket s; isConnected := isConnected s;
     isConnecting := isConnecting s; reconnectAttempts := reconnectAttempts s;
     eventListeners := eventListeners s; messageQueue := v;
     storedWebRTCEvents := storedWebRTCEvents s;
     heartbeatInterval := heartbeatInterval s; wire := wire s;
     invoked := invoked s |}.
Definition set_storedWebRTCEvents v (s : service) : service :=
  {| socket := socket s; isConnected := isConnected s;
     isConnecting := isConnecting s; reconnectAttempts := reconnectAttempts s;
     eventListeners := eventListeners s; messageQueue := messageQueue s;
     storedWebRTCEvents := v; heartbeatInterval := heartbeatInterval s;
     wire := wire s; invoked := invoked s |}.
Definition set_heartbeatInterval v (s : service) : service :=
  {| socket := socket s; isConnected := isConnected s;
     isConnecting := isConnecting s; reconnectAttempts := reconnectAttempts s;
     eventListeners := eventListeners s; messageQueue := messageQueue s;
     storedWebRTCEvents := storedWebRTCEvents s; heartbeatInterval := v;
     wire := wire s; invoked := invoked s |}.
Definition set_wire v (s : service) : service :=
  {| socket := socket s; isConnected := isConnected s;
     isConnecting := isConnecting s; reconnectAttempts := reconnectAttempts s;
     eventListeners := eventListeners s; messageQueue := messageQueue s;
     storedWebRTCEvents := storedWebRTCEvents s;
     heartbeatInterval := heartbeatInterval s; wire := v; invoked := invoked s |}.
Definition set_invoked v (s : service) : service :=
  {| socket := socket s; isConnected := isConnected s;
     isConnecting := isConnecting s; reconnectAttempts := reconnectAttempts s;
     eventListeners := eventListeners s; messageQueue := messageQueue s;
     storedWebRTCEvents := storedWebRTCEvents s;
     heartbeatInterval := heartbeatInterval s; wire := wire s; invoked := v |}.

Arguments set_isConnected v s /.
Arguments set_isConnecting v s /.
Arguments set_reconnectAttempts v s /.
Arguments set_eventListeners v s /.
Arguments set_messageQueue v s /.
Arguments set_storedWebRTCEvents v s /.
Arguments set_heartbeatInterval v s /.
Arguments set_wire v s /.
Arguments set_invoked v s /.

(** The options handed to [io(...)] in [connect], lines 64-74: the retry loop
    itself belongs to the transport library. *)
Record io_options : Type := IoOptions {
  reconnection : bool;
  reconnectionAttempts : nat;
  reconnectionDelay : N;                        (* milliseconds *)
  reconnectionDelayMax : N
}.
Definition ioOptions : io_options :=
  {| reconnection := true; reconnectionAttempts := 3;
     reconnectionDelay := 2000%N; reconnectionDelayMax := 10000%N |}.

(** [set.add(cb)]: a [Set] keeps insertion order and ignores a second add. *)
Definition set_add (cb : callback) (l : list callback) : list callback :=
  if decide (cb ∈ l) then l else l ++ [cb].

(** [set.delete(cb)] *)
Definition set_delete (cb : callback) (l : list callback) : list callback :=
  filter (fun x => x ≠ cb) l.

Section Listeners.

(** What a listener does when called is outside the service; all the service
    can observe is whether the call throws. *)
Variable throws : callback -> payload -> bool.

(** [callback(data)] *)
Definition call (cb : callback) (data : payload) : M service unit :=
  modify (fun s => set_invoked (invoked s ++ [(cb, data)]) s) ;;
  if throws cb data then throw "listener error" else ret tt.

(** [emitEvent(event, data)], lines 422-462.  The debugging block only reads
    fields of [data], which is an object at every call of [emitEvent]. *)
Definition emitEvent (event : string) (data : payload) : M service unit :=
  do listeners <- gets (fun s => eventListeners s !! event) ;
  match listeners with
  | Some ls =>
      forEach ls (fun cb => try_catch (call cb data) (fun _error => ret tt))
  | None => ret tt
  end.

(** [storeWebRTCEvent(eventType, data)], lines 533-539 *)
Definition storeWebRTCEvent (eventType : string) (data : payload) : M service unit :=
  modify (fun s =>
    match storedWebRTCEvents s !! eventType with
    | Some _ => s
    | None => set_storedWebRTCEvents (<[eventType := []]> (storedWebRTCEvents s)) s
    end) ;;
  modify (fun s =>
    set_storedWebRTCEvents
      (<[eventType := default [] (storedWebRTCEvents s !! eventType) ++ [data]]>
         (storedWebRTCEvents s)) s).

(** [processStoredWebRTCEvents(eventType)], lines 545-558 *)
Definition processStoredWebRTCEvents (eventType : string) : M service unit :=
  do stored <- gets (fun s => storedWebRTCEvents s !! eventType) ;
  match stored with
  | Some storedEvents =>
      forEach storedEvents (fun eventData => emitEvent eventType eventData) ;;
      modify (fun s => set_storedWebRTCEvents (delete eventType (storedWebRTCEvents s)) s)
  | None => ret tt
  end.

(** [on(event, callback)], lines 469-488 *)
Definition on (event : string) (cb : callback) : M service unit :=
  modify (fun s =>
    match eventListeners s !! event with
    | Some _ => s
    | None => set_eventListeners (<[event := []]> (eventListeners s)) s
    end) ;;
  modify (fun s =>
    set_eventListeners
      (<[event := set_add cb (default [] (eventListeners s !! event))]>
         (eventListeners s)) s) ;;
  when (includes event "webrtc") (processStoredWebRTCEvents event).

(** [off(event, callback)], lines 495-508; [cb = None] is a call without the
    second argument. *)
Definition off (event : string) (cb : option callback) : M service unit :=
  do listeners <- gets (fun s => eventListeners s !! event) ;
  match listeners with
  | Some ls =>
      match cb with
      | Some c =>
          let ls' := set_delete c ls in
          modify (fun s => set_eventListeners (<[event := ls']> (eventListeners s)) s) ;;
          when (Nat.eqb (length ls') 0)
            (modify (fun s => set_eventListeners (delete event (eventListeners s)) s))
      | None =>
          modify (fun s => set_eventListeners (delete event (eventListeners s)) s)
      end
  | None => ret tt
  end.

(** [emit(event, data)], lines 565-575 *)
Definition emit (event : string) (data : payload) : M service unit :=
  do connected <- gets isConnected ;
  if negb connected then
    modify (fun s => set_messageQueue (messageQueue s ++ [(event, data)]) s)
  else
    do sock <- gets socket ;
    match sock with
    | Some _ => modify (fun s => set_wire (wire s ++ [(event, data)]) s)
    | None => ret tt
    end.

(** [processMessageQueue()], lines 580-585.  The [while] loop runs on fuel:
    each round shifts the head of the queue and hands it to [emit]. *)
Fixpoint processMessageQueue (fuel : nat) : M service unit :=
  do queue <- gets messageQueue ;
  match queue with
  | [] => ret tt
  | (event, data) :: rest =>
      match fuel with
      | O => fun s => (Diverges, s)
      | S fuel' =>
          modify (set_messageQueue rest) ;;
          emit event data ;;
          processMessageQueue fuel'
      end
  end.

(** [startHeartbeat(interval)], lines 808-818: the old timer, if any, is
    cleared and a new one is installed. *)
Definition startHeartbeat (interval : N) : M service unit :=
  modify (set_heartbeatInterval (Some interval)).

(** The socket's ['connect'] handler, lines 77-98 *)
Definition on_connect (fuel : nat) : M service unit :=
  modify (set_isConnected true) ;;
  modify (set_isConnecting false) ;;
  modify (set_reconnectAttempts 0) ;;
  processMessageQueue fuel ;;
  startHeartbeat 30000%N ;;
  emitEvent "connection_success" stamped.

(** The socket's ['disconnect'] handler, lines 118-135 *)
Definition on_disconnect (reason : string) : M service unit :=
  modify (set_isConnected false) ;;
  modify (set_isConnecting false) ;;
  emitEvent "disconnection" (becauseOf reason).

(** The socket's ['reconnect_attempt'] handler, lines 138-152 *)
Definition on_reconnect_attempt (attemptNumber : nat) : M service unit :=
  modify (set_reconnectAttempts attemptNumber) ;;
  do connecting <- gets isConnecting ;
  if connecting then ret tt
  else emitEvent "reconnection_attempt" stamped.

(** The socket's ['reconnect_failed'] handler, lines 165-172 *)
Definition on_reconnect_failed : M service unit :=
  modify (set_isConnecting false) ;;
  emitEvent "reconnection_failed" stamped.

(** [!this.eventListeners.has(e) || this.eventListeners.get(e).size === 0] *)
Definition noListeners (event : string) (s : service) : bool :=
  match eventListeners s !! event with
  | Some ls => Nat.eqb (length ls) 0
  | None => true
  end.

(** The handlers that [setupEventHandlers] (lines 216-415) installs on the
    socket, indexed by the name of the event on the wire. *)
Definition receive (wireName : string) (data : payload) : M service unit :=
  match wireName with
  | "message_received" => emitEvent "message_received" data
  | "message_reaction" => emitEvent "message_reaction" data
  | "user_typing" => emitEvent "user_typing" data
  | "user_joined_chat" => emitEvent "user_joined_chat" data
  | "user_left_chat" => emitEvent "user_left_chat" data
  | "call:incoming" => emitEvent "call_incoming" data
  | "call:initiated" => emitEvent "call_initiated" data
  | "call:accepted" => emitEvent "call_accepted" data
  | "call:rejected" => emitEvent "call_rejected" data
  | "call:ended" => emitEvent "call_ended" data
  | "call:error" => emitEvent "call_error" data
  | "webrtc_offer" => emitEvent "webrtc_offer" data
  | "webrtc_answer" => emitEvent "webrtc_answer" data
  | "webrtc_ice_candidate" => emitEvent "webrtc_ice_candidate" data
  | "webrtc:offer" =>
      do none <- gets (noListeners "webrtc_offer") ;
      when none (storeWebRTCEvent "webrtc_offer" data) ;;
      emitEvent "webrtc_offer" data
  | "webrtc:answer" => emitEvent "webrtc_answer" data
  | "webrtc:ice-candidate" =>
      do none <- gets (noListeners "webrtc_ice_candidate") ;
      when none (storeWebRTCEvent "webrtc_ice_candidate" data) ;;
      emitEvent "webrtc_ice_candidate" data
  | "user_online" => emitEvent "user_online" data
  | "user_offline" => emitEvent "user_offline" data
  | "user_status_update" => emitEvent "user_status_update" data
  | "new_message_notification" => emitEvent "new_message_notification" data
  | "error" => emitEvent "socket_error" data
  | "pong" => emitEvent "pong" stamped
  | _ => ret tt
  end.

(** The object [{ error: error.message, timestamp }] of lines 106-109; the
    message of the error travels in the field [message]. *)
Definition errorOf (msg : string) : obj :=
  {| success := false; callId := None; chatId := None; type := None;
     status := None; otherUser := None; otherParticipant := None;
     isIncoming := None; timestamp := None; offer := None; answer := None;
     candidate := None; message := Some msg; reason := None |}.

(** The socket's ['connect_error'] handler, lines 101-115.  Rejecting the
    promise of [connect] does not touch the service. *)
Definition on_connect_error (msg : string) : M service unit :=
  modify (set_isConnected false) ;;
  modify (set_isConnecting false) ;;
  emitEvent "connection_error" (errorOf msg).

(** The socket's ['reconnect'] handler, lines 154-163 *)
Definition on_reconnect (attemptNumber : nat) : M service unit :=
  modify (set_reconnectAttempts 0) ;;
  modify (set_isConnecting false) ;;
  emitEvent "reconnection_success" stamped.

(** *** Where the handlers are installed

    [io(...)] returns a Socket, and [this.socket.io] is its Manager.  Each of
    the two is an event emitter of its own: a handler installed with
    [emitter.on(name, h)] runs when that emitter emits [name]. *)
Inductive emitter : Type := TheSocket | TheManager.

#[global] Instance emitter_eq_dec : EqDecision emitter.
Proof. solve_decision. Defined.

(** What an emitter hands to the handlers *)
Inductive argument : Type :=
| Nothing
| Reason (reason : string)
| Failure (message : string)
| Attempt (attemptNumber : nat)
| Data (data : payload).

(** The closures that [connect] and [setupEventHandlers] install *)
Inductive handler : Type :=
| ConnectHandler
| ConnectErrorHandler
| DisconnectHandler
| ReconnectAttemptHandler
| ReconnectHandler
| ReconnectFailedHandler
| WireHandler (wireName : string).

(** The names under which [setupEventHandlers] installs a handler *)
Definition wireNames : list string :=
  ["message_received"; "message_reaction"; "user_typing"; "user_joined_chat";
   "user_left_chat"; "call:incoming"; "call:initiated"; "call:accepted";
   "call:rejected"; "call:ended"; "call:error"; "webrtc_offer";
   "webrtc_answer"; "webrtc_ice_candidate"; "webrtc:offer"; "webrtc:answer";
   "webrtc:ice-candidate"; "user_online"; "user_offline";
   "user_status_update"; "new_message_notification"; "error"; "pong"].

(** Every installation in the file is a [this.socket.on(name, ...)], lines
    77-172 and 216-415: all handlers sit on the Socket, in this order, and
    none on the Manager, which the file never mentions. *)
Definition installed : list (emitter * string * handler) :=
  [(TheSocket, "connect", ConnectHandler);
   (TheSocket, "connect_error", ConnectErrorHandler);
   (TheSocket, "disconnect", DisconnectHandler);
   (TheSocket, "reconnect_attempt", ReconnectAttemptHandler);
   (TheSocket, "reconnect", ReconnectHandler);
   (TheSocket, "reconnect_failed", ReconnectFailedHandler)]
  ++ map (fun name => (TheSocket, name, WireHandler name)) wireNames.

(** A handler called with what the emitter hands to it; the library hands
    each name the argument of its kind, so that the last case is not met. *)
Definition handle (fuel : nat) (h : handler) (a : argument) : M service unit :=
  match h, a with
  | ConnectHandler, _ => on_connect fuel
  | ConnectErrorHandler, Failure msg => on_connect_error msg
  | DisconnectHandler, Reason reason => on_disconnect reason
  | ReconnectAttemptHandler, Attempt n => on_reconnect_attempt n
  | ReconnectHandler, Attempt n => on_reconnect n
  | ReconnectFailedHandler, _ => on_reconnect_failed
  | WireHandler name, Data data => receive name data
  | _, _ => ret tt
  end.

(** [emitter.emit(name, a)] inside the library: the handlers installed on
    that emitter under that name run, in the order of installation. *)
Definition emitted (fuel : nat) (e : emitter) (name : string) (a : argument)
    : M service unit :=
  forEach
    (filter (fun entry => entry.1.1 = e /\ entry.1.2 = name) installed)
    (fun entry => handle fuel entry.2 a).

End Listeners.
End Socket.

(** ** The call service: [enhancedCallService.js]

    Every method posts one request and either returns an object with
    [success: true] or throws the error built by [handleError].  The server
    is outside the program: its answer to a request is a parameter. *)
Module CallService.
Import Js.

Inductive request : Type :=
| InitiateCall (chatId : option string) (type : string)
| AcceptCall (callId : option string)
| RejectCall (callId : option string) (reason : string)
| EndCall (callId : option string) (reason : string)
| Signaling (callId : option string) (kind : string) (data : string).

Inductive response : Type :=
| Returns (result : obj)
| Fails (message : string).

Section Server.
Context {S : Type}.
Variable server : request -> response.
(** where the component keeps the log of what was asked *)
Variable record : request -> S -> S.

Definition post (r : request) : M S obj :=
  modify (record r) ;;
  match server r with
  | Returns result => ret result
  | Fails msg => throw msg
  end.

Definition initiateCall chatId type := post (InitiateCall chatId type).
Definition acceptCall callId := post (AcceptCall callId).
Definition rejectCall callId reason := post (RejectCall callId reason).
Definition endCall callId reason := post (EndCall callId reason).
Definition sendOffer callId offer := post (Signaling callId "offer" offer).
Definition sendAnswer callId answer := post (Signaling callId "answer" answer).
Definition sendIceCandidate callId candidate :=
  post (Signaling callId "ice-candidate" candidate).

End Server.
End CallService.

(** ** The session registry: [EnhancedChatPage.jsx]

    The page keeps the active call and the incoming call in React state.  A
    handler is a closure of one render: it reads the state values of that
    render (the snapshot [seen]) and writes through the setters, whose
    functional form [setX(prev => ...)] reads the current state instead. *)
Module ChatPage.
Import Js CallService.

Record page : Type := Page {
  activeCall : option obj;
  incomingCall : option obj;
  error : option string;
  requests : list request          (* what the call service was asked *)
}.

Definition setActiveCall (f : option obj -> option obj) : M page unit :=
  modify (fun s => {| activeCall := f (activeCall s); incomingCall := incomingCall s;
                      error := error s; requests := requests s |}).
Definition setIncomingCall (v : option obj) : M page unit :=
  modify (fun s => {| activeCall := activeCall s; incomingCall := v;
                      error := error s; requests := requests s |}).
Definition setError (v : option string) : M page unit :=
  modify (fun s => {| activeCall := activeCall s; incomingCall := incomingCall s;
                      error := v; requests := requests s |}).
Definition record (r : request) (s : page) : page :=
  {| activeCall := activeCall s; incomingCall := incomingCall s;
     error := error s; requests := requests s ++ [r] |}.

(** [prev => ({ ...prev, status: 'connected' })]; spreading [null] gives [{}] *)
Definition connected (prev : option obj) : option obj :=
  Some (with_status "connected" (default emptyObj prev)).

(** [activeCall && activeCall.callId === other.callId] *)
Definition sameCall (active : option obj) (other : obj) : bool :=
  match active with
  | Some a => bool_decide (callId a = callId other)
  | None => false
  end.

Section Render.
Variable server : request -> response.
(** the state values captured by the closures of this render *)
Variable seen : page.

(** [handleCallInitiate(chat, type)], lines 200-222; [chat_id] is [chat._id] *)
Definition handleCallInitiate (chat_id : option string) (kind : string) : M page unit :=
  try_catch
    (match activeCall seen with
     | Some _ => throw "Another call is already active"
     | None => ret tt
     end ;;
     do result <- initiateCall server record chat_id kind ;
     when (success result)
       (setActiveCall (fun _ => Some
          {| success := false; callId := callId result; chatId := chatId result;
             type := type result; status := status result;
             otherUser := otherParticipant result; otherParticipant := None;
             isIncoming := Some false; timestamp := None; offer := None;
             answer := None; candidate := None; message := None;
             reason := None |})))
    (fun msg => setError (Some (message_or msg "Failed to initiate call"))).

(** [handleCallEnd()], lines 224-227 *)
Definition handleCallEnd : M page unit :=
  setActiveCall (fun _ => None) ;;
  setIncomingCall None.

(** [handleIncomingCall(callData)], lines 229-243 *)
Definition handleIncomingCall (callData : obj) : M page unit :=
  if sameCall (activeCall seen) callData then
    setActiveCall connected
  else
    setIncomingCall (Some callData).

(** [handleCallAccepted(callData)], lines 245-279 *)
Definition handleCallAccepted (callData : obj) : M page unit :=
  setIncomingCall None ;;
  setActiveCall (fun prev =>
    if sameCall prev callData then connected prev
    else Some
      {| success := false; callId := callId callData; chatId := chatId callData;
         type := or_else (type callData) (Some "audio");
         status := Some "connected"; otherUser := otherUser callData;
         otherParticipant := None; isIncoming := Some false;
         timestamp := timestamp callData; offer := None; answer := None;
         candidate := None; message := None; reason := None |}) ;;
  setError None.

(** [handleCallRejected(callData)], lines 281-286 *)
Definition handleCallRejected (callData : obj) : M page unit :=
  setIncomingCall None ;;
  setActiveCall (fun _ => None) ;;
  setError (Some "Call was rejected").

(** [handleCallEnded(callData)], lines 288-292 *)
Definition handleCallEnded (callData : obj) : M page unit :=
  setIncomingCall None ;;
  setActiveCall (fun _ => None).

(** [handleCallError(errorData)], lines 294-299 *)
Definition handleCallError (errorData : obj) : M page unit :=
  setIncomingCall None ;;
  setActiveCall (fun _ => None) ;;
  setError (or_else (message errorData) (Some "Call error occurred")).

(** The call record built from the incoming call on acceptance *)
Definition accepted (incoming : obj) : obj :=
  {| success := false; callId := callId incoming; chatId := chatId incoming;
     type := type incoming; status := Some "connected";
     otherUser := otherUser incoming; otherParticipant := None;
     isIncoming := Some false; timestamp := None; offer := None;
     answer := None; candidate := None; message := None; reason := None |}.

(** [handleAcceptIncomingCall()], lines 301-349 *)
Definition handleAcceptIncomingCall : M page unit :=
  match incomingCall seen with
  | None => ret tt
  | Some incoming =>
      try_catch
        (if sameCall (activeCall seen) incoming then
           setActiveCall connected ;;
           setIncomingCall None
         else
           do result <- acceptCall server record (callId incoming) ;
           when (success result)
             (setActiveCall (fun _ => Some (accepted incoming)) ;;
              setIncomingCall None))
        (fun msg =>
           if includes msg "not in ringing state" then
             setActiveCall (fun _ => Some (accepted incoming)) ;;
             setIncomingCall None
           else
             setError (Some (message_or msg "Failed to accept call")) ;;
             setIncomingCall None)
  end.

(** [handleRejectIncomingCall()], lines 351-361 *)
Definition handleRejectIncomingCall : M page unit :=
  match incomingCall seen with
  | None => ret tt
  | Some incoming =>
      try_catch
        (do _r <- rejectCall server record (callId incoming) "User rejected" ;
         setIncomingCall None)
        (fun _ => setIncomingCall None)
  end.

End Render.
End ChatPage.

(** ** JavaScript numbers, as far as the quality check compares them

    Every finite double is a rational, so a comparison against a constant is
    exact on [Fin]; a comparison with [NaN] is false.  The arithmetic that
    produces the numbers is IEEE arithmetic and is taken as a parameter. *)
Inductive num : Type :=
| Fin (q : Q)
| Inf (negative : bool)
| NaN.

(** [a < q] *)
Definition num_ltb (a : num) (q : Q) : bool :=
  match a with
  | Fin x => negb (Qle_bool q x)
  | Inf negative => negative
  | NaN => false
  end.

(** [a > q] *)
Definition num_gtb (a : num) (q : Q) : bool :=
  match a with
  | Fin x => negb (Qle_bool x q)
  | Inf negative => negb negative
  | NaN => false
  end.

(** ** A call session: [EnhancedVideoCall.jsx] *)
Module VideoCall.
Import Js CallService.

(** An entry of [pendingSignals]: [{ eventType, data }] *)
Record signal : Type := Signal {
  eventType : string;
  data : obj
}.

(** What the component reads of an [RTCPeerConnection] *)
Record peer : Type := Peer {
  remoteDescription : option string;
  localDescription : option string;
  connectionState : string
}.

(** The calls made on the media engine, in order *)
Inductive engine_op : Type :=
| NewPeerConnection
| GetUserMedia
| AddTrack (track : nat)
| CreateOffer
| CreateAnswer
| SetLocalDescription (sdp : string)
| SetRemoteDescription (sdp : string)
| AddIceCandidate (c : string)
| GetStats
| ClosePeer
| StopTrack (track : nat).

(** The media engine is outside the program.  Whether it rejects a call may
    depend on everything asked of it so far. *)
Record media : Type := Media {
  rejects : list engine_op -> engine_op -> bool;
  userMedia : list nat;          (* the tracks of the stream getUserMedia yields *)
  createdOffer : string;
  createdAnswer : string
}.

(** One entry of [getStats()] *)
Record report : Type := Report {
  report_type : string;          (* report.type *)
  mediaType : string;
  bytesReceived : num;
  packetsLost : num;
  packetsReceived : num
}.

(** The props of the component; [offer] of [incomingCallData] stands for
    [incomingCallData.signalingData.offer]. *)
Record props : Type := Props {
  propCallId : option string;
  incomingCallData : option obj;
  isIncomingProp : bool;
  onCallEnd : bool               (* whether the parent passed the callback *)
}.

(** React state ([useState]), refs ([useRef]) and the observable effects *)
Record component : Type := Component {
  callStatus : string;
  connectionQuality : string;
  error : option string;
  pendingSignals : gmap (option string) (list signal);
  peerConnectionRef : option peer;
  localStreamRef : option (list nat);
  screenStreamRef : option (list nat);
  durationIntervalRef : option N;
  qualityCheckIntervalRef : option N;    (* period of the running timer, ms *)
  isWebRTCSetupRef : bool;
  engine : list engine_op;               (* calls made on the media engine *)
  requests : list request;               (* what the call service was asked *)
  callEnds : nat                         (* how often onCallEnd() was called *)
}.

Definition set_callStatus v (s : component) : component :=
  {| callStatus := v; connectionQuality := connectionQuality s; error := error s;
     pendingSignals := pendingSignals s; peerConnectionRef := peerConnectionRef s;
     localStreamRef := localStreamRef s; screenStreamRef := screenStreamRef s;
     durationIntervalRef := durationIntervalRef s;
     qualityCheckIntervalRef := qualityCheckIntervalRef s;
     isWebRTCSetupRef := isWebRTCSetupRef s; engine := engine s;
     requests := requests s; callEnds := callEnds s |}.
Definition set_connectionQuality v (s : component) : component :=
  {| callStatus := callStatus s; connectionQuality := v; error := error s;
     pendingSignals := pendingSignals s; peerConnectionRef := peerConnectionRef s;
     localStreamRef := localStreamRef s; screenStreamRef := screenStreamRef s;
     durationIntervalRef := durationIntervalRef s;
     qualityCheckIntervalRef := qualityCheckIntervalRef s;
     isWebRTCSetupRef := isWebRTCSetupRef s; engine := engine s;
     requests := requests s; callEnds := callEnds s |}.
Definition set_error v (s : component) : component :=
  {| callStatus := callStatus s; connectionQuality := connectionQuality s;
     error := v; pendingSignals := pendingSignals s;
     peerConnectionRef := peerConnectionRef s; localStreamRef := localStreamRef s;
     screenStreamRef := screenStreamRef s;
     durationIntervalRef := durationIntervalRef s;
     qualityCheckIntervalRef := qualityCheckIntervalRef s;
     isWebRTCSetupRef := isWebRTCSetupRef s; engine := engine s;
     requests := requests s; callEnds := callEnds s |}.
Definition set_pendingSignals v (s : component) : component :=
  {| callStatus := callStatus s; connectionQuality := connectionQuality s;
     error := error s; pendingSignals := v;
     peerConnectionRef := peerConnectionRef s; localStreamRef := localStreamRef s;
     screenStreamRef := screenStreamRef s;
     durationIntervalRef := durationIntervalRef s;
     qualityCheckIntervalRef := qualityCheckIntervalRef s;
     isWebRTCSetupRef := isWebRTCSetupRef s; engine := engine s;
     requests := requests s; callEnds := callEnds s |}.
Definition set_peerConnectionRef v (s : component) : component :=
  {| callStatus := callStatus s; connectionQuality := connectionQuality s;
     error := error s; pendingSignals := pendingSignals s; peerConnectionRef := v;
     localStreamRef := localStreamRef s; screenStreamRef := screenStreamRef s;
     durationIntervalRef := durationIntervalRef s;
     qualityCheckIntervalRef := qualityCheckIntervalRef s;
     isWebRTCSetupRef := isWebRTCSetupRef s; engine := engine s;
     requests := requests s; callEnds := callEnds s |}.
Definition set_localStreamRef v (s : component) : component :=
  {| callStatus := callStatus s; connectionQuality := connectionQuality s;
     error := error s; pendingSignals := pendingSignals s;
     peerConnectionRef := peerConnectionRef s; localStreamRef := v;
     screenStreamRef := screenStreamRef s;
     durationIntervalRef := durationIntervalRef s;
     qualityCheckIntervalRef := qualityCheckIntervalRef s;
     isWebRTCSetupRef := isWebRTCSetupRef s; engine := engine s;
     requests := requests s; callEnds := callEnds s |}.
Definition set_screenStreamRef v (s : component) : component :=
  {| callStatus := callStatus s; connectionQuality := connectionQuality s;
     error := error s; pendingSignals := pendingSignals s;
     peerConnectionRef := peerConnectionRef s; localStreamRef := localStreamRef s;
     screenStreamRef := v; durationIntervalRef := durationIntervalRef s;
     qualityCheckIntervalRef := qualityCheckIntervalRef s;
     isWebRTCSetupRef := isWebRTCSetupRef s; engine := engine s;
     requests := requests s; callEnds := callEnds s |}.
Definition set_durationIntervalRef v (s : component) : component :=
  {| callStatus := callStatus s; connectionQuality := connectionQuality s;
     error := error s; pendingSignals := pendingSignals s;
     peerConnectionRef := peerConnectionRef s; localStreamRef := localStreamRef s;
     screenStreamRef := screenStreamRef s; durationIntervalRef := v;
     qualityCheckIntervalRef := qualityCheckIntervalRef s;
     isWebRTCSetupRef := isWebRTCSetupRef s; engine := engine s;
     requests := requests s; callEnds := callEnds s |}.
Definition set_qualityCheckIntervalRef v (s : component) : component :=
  {| callStatus := callStatus s; connectionQuality := connectionQuality s;
     error := error s; pendingSignals := pendingSignals s;
     peerConnectionRef := peerConnectionRef s; localStreamRef := localStreamRef s;
     screenStreamRef := screenStreamRef s;
     durationIntervalRef := durationIntervalRef s; qualityCheckIntervalRef := v;
     isWebRTCSetupRef := isWebRTCSetupRef s; engine := engine s;
     requests := requests s; callEnds := callEnds s |}.
Definition set_isWebRTCSetupRef v (s : component) : component :=
  {| callStatus := callStatus s; connectionQuality := connectionQuality s;
     error := error s; pendingSignals := pendingSignals s;
     peerConnectionRef := peerConnectionRef s; localStreamRef := localStreamRef s;
     screenStreamRef := screenStreamRef s;
     durationIntervalRef := durationIntervalRef s;
     qualityCheckIntervalRef := qualityCheckIntervalRef s; isWebRTCSetupRef := v;
     engine := engine s; requests := requests s; callEnds := callEnds s |}.
Definition set_engine v (s : component) : component :=
  {| callStatus := callStatus s; connectionQuality := connectionQuality s;
     error := error s; pendingSignals := pendingSignals s;
     peerConnectionRef := peerConnectionRef s; localStreamRef := localStreamRef s;
     screenStreamRef := screenStreamRef s;
     durationIntervalRef := durationIntervalRef s;
     qualityCheckIntervalRef := qualityCheckIntervalRef s;
     isWebRTCSetupRef := isWebRTCSetupRef s; engine := v; requests := requests s;
     callEnds := callEnds s |}.
Definition set_requests v (s : component) : component :=
  {| callStatus := callStatus s; connectionQuality := connectionQuality s;
     error := error s; pendingSignals := pendingSignals s;
     peerConnectionRef := peerConnectionRef s; localStreamRef := localStreamRef s;
     screenStreamRef := screenStreamRef s;
     durationIntervalRef := durationIntervalRef s;
     qualityCheckIntervalRef := qualityCheckIntervalRef s;
     isWebRTCSetupRef := isWebRTCSetupRef s; engine := engine s; requests := v;
     callEnds := callEnds s |}.
Definition set_callEnds v (s : component) : component :=
  {| callStatus := callStatus s; connectionQuality := connectionQuality s;
     error := error s; pendingSignals := pendingSignals s;
     peerConnectionRef := peerConnectionRef s; localStreamRef := localStreamRef s;
     screenStreamRef := screenStreamRef s;
     durationIntervalRef := durationIntervalRef s;
     qualityCheckIntervalRef := qualityCheckIntervalRef s;
     isWebRTCSetupRef := isWebRTCSetupRef s; engine := engine s;
     requests := requests s; callEnds := v |}.

Arguments set_callStatus v s /.
Arguments set_connectionQuality v s /.
Arguments set_error v s /.
Arguments set_pendingSignals v s /.
Arguments set_peerConnectionRef v s /.
Arguments set_localStreamRef v s /.
Arguments set_screenStreamRef v s /.
Arguments set_durationIntervalRef v s /.
Arguments set_qualityCheckIntervalRef v s /.
Arguments set_isWebRTCSetupRef v s /.
Arguments set_engine v s /.
Arguments set_requests v s /.
Arguments set_callEnds v s /.

(** The component as it mounts: [useState]/[useRef] initial values *)
Definition mount (p : props) : component :=
  {| callStatus := if isIncomingProp p then "incoming" else "initiating";
     connectionQuality := "good"; error := None; pendingSignals := ∅;
     peerConnectionRef := None; localStreamRef := None; screenStreamRef := None;
     durationIntervalRef := None; qualityCheckIntervalRef := None;
     isWebRTCSetupRef := false; engine := []; requests := []; callEnds := 0 |}.

Definition record (r : request) (s : component) : component :=
  set_requests (requests s ++ [r]) s.

Definition isIceCandidate (sig : signal) : bool :=
  String.eqb (eventType sig) "ice-candidate".

(** The three-way test of the quality check, lines 755-763 *)
Definition quality (packetLoss videoBitrate : num) : string :=
  if num_ltb packetLoss 1 && num_gtb videoBitrate 500 then "excellent"
  else if num_ltb packetLoss 3 && num_gtb videoBitrate 300 then "good"
  else if num_ltb packetLoss 5 && num_gtb videoBitrate 200 then "fair"
  else "poor".

Section Render.
Variable server : request -> response.
Variable rtc : media.
(** A session description stands as a string; whether the object it stands
    for carries a string [sdp], which the answer listener reads before it
    enters any [try]. *)
Variable hasSdp : string -> bool.
(** IEEE arithmetic on JavaScript numbers *)
Variables js_add js_mul js_div : num -> num -> num.
Variable p : props.
(** the state values captured by the closures of this render *)
Variable seen : component.

(** [propCallId || incomingCallData?.callId] *)
Definition currentCallId : option string :=
  or_else (propCallId p)
    (match incomingCallData p with Some d => callId d | None => None end).

(** A call on the media engine that may fail *)
Definition perform (op : engine_op) : M component unit :=
  do log <- gets engine ;
  modify (set_engine (log ++ [op])) ;;
  if rejects rtc log op then throw "media engine error" else ret tt.

(** A call on the media engine that cannot fail *)
Definition note (op : engine_op) : M component unit :=
  modify (fun s => set_engine (engine s ++ [op]) s).

(** [peerConnectionRef.current.m(...)]: a [TypeError] when the ref is null *)
Definition withPeer {A} (k : peer -> M component A) : M component A :=
  do pc <- gets peerConnectionRef ;
  match pc with
  | Some peer => k peer
  | None => throw "Cannot read properties of null"
  end.

Definition setRemoteDescription (sdp : string) : M component unit :=
  withPeer (fun _ => perform (SetRemoteDescription sdp)) ;;
  modify (fun s =>
    match peerConnectionRef s with
    | Some peer =>
        set_peerConnectionRef
          (Some {| remoteDescription := Some sdp;
                   localDescription := localDescription peer;
                   connectionState := connectionState peer |}) s
    | None => s
    end).

Definition setLocalDescription (sdp : string) : M component unit :=
  withPeer (fun _ => perform (SetLocalDescription sdp)) ;;
  modify (fun s =>
    match peerConnectionRef s with
    | Some peer =>
        set_peerConnectionRef
          (Some {| remoteDescription := remoteDescription peer;
                   localDescription := Some sdp;
                   connectionState := connectionState peer |}) s
    | None => s
    end).

(** [pc.addIceCandidate(c).catch(error => console.error(...))] *)
Definition addIceCandidate (c : string) : M component unit :=
  try_catch (perform (AddIceCandidate c)) (fun _error => ret tt).

Definition setCallStatus (v : string) : M component unit := modify (set_callStatus v).
Definition setError (v : string) : M component unit := modify (set_error (Some v)).
Definition setConnectionQuality (v : string) : M component unit :=
  modify (set_connectionQuality v).
Definition setPendingSignals
    (f : gmap (option string) (list signal) -> gmap (option string) (list signal))
    : M component unit :=
  modify (fun s => set_pendingSignals (f (pendingSignals s)) s).

(** [queueSignal(eventType, data)], lines 51-57 *)
Definition queueSignal (kind : string) (d : obj) : M component unit :=
  setPendingSignals (fun prev =>
    <[callId d := default [] (prev !! callId d)
                  ++ [{| eventType := kind; data := d |}]]> prev).

(** [setupWebRTC(callId)], lines 310-423 *)
Definition setupWebRTC (id : option string) : M component unit :=
  try_catch
    (perform NewPeerConnection ;;
     modify (set_peerConnectionRef
       (Some {| remoteDescription := None; localDescription := None;
                connectionState := "new" |})) ;;
     perform GetUserMedia ;;
     modify (set_localStreamRef (Some (userMedia rtc))) ;;
     forEach (userMedia rtc) (fun track => withPeer (fun _ => note (AddTrack track))) ;;
     modify (set_isWebRTCSetupRef true))
    (fun msg =>
       setError (message_or msg "Failed to setup call") ;;
       setCallStatus "failed").

(** [processQueuedIceCandidates(callId)], lines 514-533 *)
Definition processQueuedIceCandidates (id : option string) : M component unit :=
  let queuedCandidates :=
    filter (fun sig => isIceCandidate sig = true)
           (default [] (pendingSignals seen !! id)) in
  forEach queuedCandidates (fun sig =>
    do pc <- gets peerConnectionRef ;
    match pc, candidate (data sig) with
    | Some _, Some c => addIceCandidate c
    | _, _ => ret tt
    end) ;;
  when (Nat.ltb 0 (length queuedCandidates))
    (setPendingSignals (fun prev =>
       <[id := filter (fun sig => isIceCandidate sig = false)
                      (default [] (prev !! id))]> prev)).

(** [handleIncomingOffer(offer, callId)], lines 458-498 *)
Definition handleIncomingOffer (sdp : string) (id : option string) : M component unit :=
  try_catch
    (do pc <- gets peerConnectionRef ;
     match pc with
     | None => setupWebRTC id
     | Some _ => ret tt
     end ;;
     setRemoteDescription sdp ;;
     processQueuedIceCandidates id ;;
     withPeer (fun _ => perform CreateAnswer) ;;
     setLocalDescription (createdAnswer rtc) ;;
     do _r <- sendAnswer server record id (createdAnswer rtc) ;
     ret tt)
    (fun msg =>
       setError (message_or msg "Failed to handle incoming offer") ;;
       setCallStatus "failed").

(** [data.callId === currentCallId || callStatus === 'connected'
     || callStatus === 'ringing'], the test shared by the three listeners *)
Definition forThisCall (d : obj) : bool :=
  bool_decide (callId d = currentCallId)
  || String.eqb (callStatus seen) "connected"
  || String.eqb (callStatus seen) "ringing".

(** [handleIncomingOfferEvent(data)], lines 134-148 *)
Definition handleIncomingOfferEvent (d : obj) : M component unit :=
  if forThisCall d then
    match offer d with
    | Some sdp => handleIncomingOffer sdp (callId d)
    | None => ret tt
    end
  else queueSignal "offer" d.

(** [handleIncomingAnswer(data)], lines 150-175 *)
Definition handleIncomingAnswer (d : obj) : M component unit :=
  if forThisCall d then
    do pc <- gets peerConnectionRef ;
    match pc, answer d with
    | Some peer, Some sdp =>
        match remoteDescription peer with
        | None =>
            (* the argument of [console.log], lines 155-159, reads
               [data.answer.sdp.substring(0, 100)] *)
            (if hasSdp sdp then ret tt
             else throw "Cannot read properties of undefined") ;;
            try_catch
              (setRemoteDescription sdp ;;
               processQueuedIceCandidates (callId d))
              (fun _error => ret tt)
        | Some _ => ret tt
        end
    | _, _ => ret tt
    end
  else queueSignal "answer" d.

(** [handleIncomingIceCandidate(data)], lines 177-208 *)
Definition handleIncomingIceCandidate (d : obj) : M component unit :=
  if forThisCall d then
    do pc <- gets peerConnectionRef ;
    match pc, candidate d with
    | Some peer, Some c =>
        match remoteDescription peer with
        | Some _ => addIceCandidate c
        | None => queueSignal "ice-candidate" d
        end
    | _, _ => ret tt
    end
  else queueSignal "ice-candidate" d.

(** The effect of lines 238-266, run after a render whose [pendingSignals]
    changed *)
Definition pendingSignalsEffect : M component unit :=
  match truthy currentCallId, pendingSignals seen !! currentCallId with
  | true, Some signals =>
      forEach signals (fun sig =>
        do pc <- gets peerConnectionRef ;
        let d := data sig in
        match eventType sig, offer d, answer d, candidate d, pc with
        | "offer", Some sdp, _, _, _ => handleIncomingOffer sdp (callId d)
        | "offer", None, _, _, _ => ret tt
        | "answer", _, Some sdp, _, Some _ =>
            try_catch
              (setRemoteDescription sdp ;;
               processQueuedIceCandidates (callId d))
              (fun _error => ret tt)
        | "answer", _, _, _, _ => ret tt
        | "ice-candidate", _, _, Some c, Some peer =>
            match remoteDescription peer with
            | Some _ => addIceCandidate c
            | None => ret tt
            end
        | _, _, _, _, _ => ret tt
        end) ;;
      setPendingSignals (fun prev => <[currentCallId := []]> prev)
  | _, _ => ret tt
  end.

(** [cleanup()], lines 771-811 *)
Definition cleanup : M component unit :=
  do localStream <- gets localStreamRef ;
  match localStream with
  | Some tracks =>
      forEach tracks (fun track => note (StopTrack track)) ;;
      modify (set_localStreamRef None)
  | None => ret tt
  end ;;
  do screenStream <- gets screenStreamRef ;
  match screenStream with
  | Some tracks =>
      forEach tracks (fun track => note (StopTrack track)) ;;
      modify (set_screenStreamRef None)
  | None => ret tt
  end ;;
  do pc <- gets peerConnectionRef ;
  match pc with
  | Some _ => note ClosePeer ;; modify (set_peerConnectionRef None)
  | None => ret tt
  end ;;
  modify (set_isWebRTCSetupRef false) ;;
  modify (set_durationIntervalRef None) ;;
  modify (set_qualityCheckIntervalRef None).

(** [if (onCallEnd) { onCallEnd(); }] *)
Definition callOnCallEnd : M component unit :=
  when (onCallEnd p) (modify (fun s => set_callEnds (S (callEnds s)) s)).

(** [acceptCall()], lines 535-558 *)
Definition acceptCall : M component unit :=
  try_catch
    ((if negb (truthy currentCallId) then throw "Call ID is required" else ret tt) ;;
     do result <- CallService.acceptCall server record currentCallId ;
     when (success result)
       (setCallStatus "connected" ;;
        match incomingCallData p with
        | Some d =>
            match offer d with
            | Some sdp => handleIncomingOffer sdp currentCallId
            | None => ret tt
            end
        | None => ret tt
        end))
    (fun msg =>
       setError (message_or msg "Failed to accept call") ;;
       setCallStatus "failed").

(** [rejectCall()], lines 560-579 *)
Definition rejectCall : M component unit :=
  try_catch
    ((if truthy currentCallId then
        do _r <- CallService.rejectCall server record currentCallId "User rejected" ;
        ret tt
      else ret tt) ;;
     setCallStatus "rejected" ;;
     callOnCallEnd)
    (fun _error =>
       setCallStatus "rejected" ;;
       callOnCallEnd).

(** [endCall()], lines 581-604 *)
Definition endCall : M component unit :=
  try_catch
    ((if truthy currentCallId then
        do _r <- CallService.endCall server record currentCallId "user_ended" ;
        ret tt
      else ret tt) ;;
     setCallStatus "ended" ;;
     cleanup ;;
     callOnCallEnd)
    (fun _error =>
       setCallStatus "ended" ;;
       cleanup ;;
       callOnCallEnd).

(** [startQualityMonitoring()], lines 734-769: installs the timer *)
Definition startQualityMonitoring : M component unit :=
  modify (set_qualityCheckIntervalRef (Some 5000%N)).

(** The numbers one pass of [stats.forEach] leaves in
    [(videoBitrate, audioBitrate, packetLoss)], lines 739-752 *)
Definition measure (stats : list report) : num * num * num :=
  fold_left
    (fun '(videoBitrate, audioBitrate, packetLoss) r =>
       if String.eqb (report_type r) "inbound-rtp" then
         let bitrate := js_div (js_mul (bytesReceived r) (Fin 8)) (Fin 1000) in
         let loss :=
           js_mul (js_div (packetsLost r)
                          (js_add (packetsReceived r) (packetsLost r)))
                  (Fin 100) in
         if String.eqb (mediaType r) "video" then (bitrate, audioBitrate, loss)
         else if String.eqb (mediaType r) "audio" then (videoBitrate, bitrate, loss)
         else (videoBitrate, audioBitrate, loss)
       else (videoBitrate, audioBitrate, packetLoss))
    stats (Fin 0, Fin 0, Fin 0).

(** One firing of the timer of [startQualityMonitoring]; [stats] is what
    [getStats()] resolves to *)
Definition qualityCheck (stats : list report) : M component unit :=
  do pc <- gets peerConnectionRef ;
  match pc with
  | Some peer =>
      if String.eqb (connectionState peer) "connected" then
        try_catch
          (perform GetStats ;;
           let '(videoBitrate, _, packetLoss) := measure stats in
           setConnectionQuality (quality packetLoss videoBitrate))
          (fun _error => ret tt)
      else ret tt
  | None => ret tt
  end.

(** [peerConnectionRef.current.onconnectionstatechange], lines 370-393, fired
    by the engine once the connection has moved to [state] *)
Definition onconnectionstatechange (state : string) : M component unit :=
  modify (fun s =>
    match peerConnectionRef s with
    | Some peer =>
        set_peerConnectionRef
          (Some {| remoteDescription := remoteDescription peer;
                   localDescription := localDescription peer;
                   connectionState := state |}) s
    | None => s
    end) ;;
  do now <- withPeer (fun peer => ret (connectionState peer)) ;
  match now with
  | "connected" => setCallStatus "connected" ;; startQualityMonitoring
  | "disconnected" => setCallStatus "failed" ;; setError "Connection disconnected"
  | "failed" =>
      setCallStatus "failed" ;;
      setError "Connection failed - check network connectivity"
  | _ => ret tt
  end.

End Render.
End VideoCall.

(** ** Vocabulary of the statements *)

(** The listeners one [emitEvent] calls, with the payload each receives *)
Definition deliveries (event : string) (d : payload) (s : Socket.service)
    : list (Socket.callback * payload) :=
  map (fun cb => (cb, d)) (default [] (Socket.eventListeners s !! event)).

(** A handler run as the closure of the latest render: what it captured is
    the state it runs on. *)
Definition latest {S A} (handler : S -> Js.M S A) : Js.M S A :=
  fun s => handler s s.




(** The signals of a call that wait as ICE candidates *)
Definition pendingCandidates (s : VideoCall.component) (id : option string)
    : list VideoCall.signal :=
  filter (fun sig => VideoCall.isIceCandidate sig = true)
         (default [] (VideoCall.pendingSignals s !! id)).

(** The candidates queued for a call, in the order of the queue *)
Definition queuedCandidates (s : VideoCall.component) (id : option string)
    : list string :=
  omap (fun sig => candidate (VideoCall.data sig)) (pendingCandidates s id).

(** The calls by which [cleanup] releases what the component holds *)
Definition releases (s : VideoCall.component) : list VideoCall.engine_op :=
  map VideoCall.StopTrack (default [] (VideoCall.localStreamRef s))
  ++ map VideoCall.StopTrack (default [] (VideoCall.screenStreamRef s))
  ++ match VideoCall.peerConnectionRef s with
     | Some _ => [VideoCall.ClosePeer]
     | None => []
     end.

(** Arithmetic without rounding, for sample runs *)
Definition exact_add (a b : num) : num :=
  match a, b with
  | Fin x, Fin y => Fin (x + y)
  | _, _ => NaN
  end.
Definition exact_mul (a b : num) : num :=
  match a, b with
  | Fin x, Fin y => Fin (x * y)
  | _, _ => NaN
  end.
Definition exact_div (a b : num) : num :=
  match a, b with
  | Fin x, Fin y => if Qeq_bool y 0 then NaN else Fin (x / y)
  | _, _ => NaN
  end.

Import ListNotations Js.
Local Open Scope string_scope.
Local Open Scope list_scope.

(** ** Sample runs

    The concrete services, components and events on which the statements
    are exercised. *)
Module Sample.

(** listeners that never throw *)
Definition quiet : Socket.callback -> payload -> bool := fun _ _ => false.

(** a service whose first connection attempt is under way *)
Definition connecting : Socket.service :=
  {| Socket.socket := Some 1; Socket.isConnected := false;
     Socket.isConnecting := true; Socket.reconnectAttempts := 0;
     Socket.eventListeners := ∅; Socket.messageQueue := [];
     Socket.storedWebRTCEvents := ∅; Socket.heartbeatInterval := None;
     Socket.wire := []; Socket.invoked := [] |}.

(** a server that accepts every request, and one that cannot be reached *)
Definition accepting : CallService.request -> CallService.response :=
  fun _ => CallService.Returns acknowledged.
Definition offline : CallService.request -> CallService.response :=
  fun _ => CallService.Fails "Network error. Please check your connection.".

(** the record of call [id] as the page keeps it *)
Definition call (id : string) (state : string) : obj :=
  {| success := false; callId := Some id; chatId := Some "chat-1";
     type := Some "video"; status := Some state; otherUser := Some "bob";
     otherParticipant := None; isIncoming := Some false; timestamp := None;
     offer := None; answer := None; candidate := None; message := None;
     reason := None |}.

(** a signaling event of call [c1]: [{ callId: 'c1', offer, answer, candidate }] *)
Definition signaling (o a c : option string) : obj :=
  {| success := false; callId := Some "c1"; chatId := None; type := None;
     status := None; otherUser := None; otherParticipant := None;
     isIncoming := None; timestamp := None; offer := o; answer := a;
     candidate := c; message := None; reason := None |}.

(** a media engine that accepts every call and yields two tracks *)
Definition rtc : VideoCall.media :=
  {| VideoCall.rejects := fun _ _ => false; VideoCall.userMedia := [1; 2];
     VideoCall.createdOffer := "local offer";
     VideoCall.createdAnswer := "local answer" |}.

(** the component of call [c1] on the calling and on the called side *)
Definition caller : VideoCall.props :=
  {| VideoCall.propCallId := Some "c1"; VideoCall.incomingCallData := None;
     VideoCall.isIncomingProp := false; VideoCall.onCallEnd := true |}.
Definition callee : VideoCall.props :=
  {| VideoCall.propCallId := Some "c1"; VideoCall.incomingCallData := None;
     VideoCall.isIncomingProp := true; VideoCall.onCallEnd := true |}.

(** the caller's peer connection after its offer went out *)
Definition offering : VideoCall.peer :=
  {| VideoCall.remoteDescription := None;
     VideoCall.localDescription := Some "local offer";
     VideoCall.connectionState := "new" |}.

(** the caller's component while the other side rings *)
Definition ringing : VideoCall.component :=
  VideoCall.set_localStreamRef (Some [1; 2])
    (VideoCall.set_peerConnectionRef (Some offering)
       (VideoCall.set_callStatus "ringing" (VideoCall.mount caller))).

(** a negotiated peer connection in the given connection state *)
Definition negotiated (state : string) : VideoCall.peer :=
  {| VideoCall.remoteDescription := Some "remote answer";
     VideoCall.localDescription := Some "local offer";
     VideoCall.connectionState := state |}.

(** one [inbound-rtp] video report: 100000 bytes, 1000 packets, none lost *)
Definition stats : list VideoCall.report :=
  [{| VideoCall.report_type := "inbound-rtp"; VideoCall.mediaType := "video";
      VideoCall.bytesReceived := Fin 100000; VideoCall.packetsLost := Fin 0;
      VideoCall.packetsReceived := Fin 1000 |}].

End Sample.

(** ** The life cycle of the transport channel: the rest of
    [enhancedSocketService.js]

    [connect], [disconnect] and [cleanup] also touch the token and the call
    handlers, which the service keeps beside the fields above. *)
Module Lifecycle.
Import Js Socket.

Record instance : Type := Instance {
  core : service;
  authToken : option string;           (* None is null or undefined *)
  callHandlers : gmap string nat       (* callId -> the handlers object *)
}.

(** [new EnhancedSocketService()] *)
Definition constructor : instance :=
  {| core := Socket.constructor; authToken := None; callHandlers := ∅ |}.

(** A method that only touches the fields of [service] *)
Definition lift {A} (m : M service A) : M instance A :=
  fun i =>
    let (r, c) := m (core i) in
    (r, {| core := c; authToken := authToken i; callHandlers := callHandlers i |}).

Definition set_socket v (s : service) : service :=
  {| socket := v; isConnected := isConnected s; isConnecting := isConnecting s;
     reconnectAttempts := reconnectAttempts s; eventListeners := eventListeners s;
     messageQueue := messageQueue s; storedWebRTCEvents := storedWebRTCEvents s;
     heartbeatInterval := heartbeatInterval s; wire := wire s;
     invoked := invoked s |}.

(** [stopHeartbeat()], lines 823-828 *)
Definition stopHeartbeat : M service unit :=
  modify (set_heartbeatInterval None).

(** [ping()], lines 732-734: the data is [undefined] *)
Definition ping : M service unit := emit "ping" emptyObj.

(** One firing of the timer that [startHeartbeat] installs, lines 813-817 *)
Definition heartbeat : M service unit :=
  do connected <- gets isConnected ;
  when connected ping.

Section Library.
Variable throws : callback -> payload -> bool.
(** [this.socket.disconnect()] belongs to the transport library: when it
    finds the socket connected it calls the socket's ['disconnect'] handler
    before it returns.  Whether it does is a parameter. *)
Variable fires : bool.

Definition socket_disconnect : M service unit :=
  when fires (on_disconnect throws "io client disconnect").

(** [disconnect()], lines 189-211 *)
Definition disconnect : M instance unit :=
  do sock <- gets (fun i => socket (core i)) ;
  match sock with
  | Some _ =>
      lift stopHeartbeat ;;
      lift socket_disconnect ;;
      lift (modify (set_socket None)) ;;
      lift (modify (set_isConnected false)) ;;
      lift (modify (set_isConnecting false)) ;;
      lift (modify (set_eventListeners ∅)) ;;
      modify (fun i => {| core := core i; authToken := authToken i;
                          callHandlers := ∅ |}) ;;
      lift (modify (set_messageQueue [])) ;;
      lift (modify (set_reconnectAttempts 0)) ;;
      modify (fun i => {| core := core i; authToken := None;
                          callHandlers := callHandlers i |})
  | None => ret tt
  end.

(** [cleanup()], lines 833-839 *)
Definition cleanup : M instance unit :=
  lift stopHeartbeat ;;
  disconnect ;;
  lift (modify (set_eventListeners ∅)) ;;
  modify (fun i => {| core := core i; authToken := authToken i;
                      callHandlers := ∅ |}) ;;
  lift (modify (set_messageQueue [])).

(** What [connect(token)] does before its promise settles, lines 28-75 and
    174-183; [fresh] is the socket that [io(...)] creates, on which the
    handlers are installed. *)
Definition connect (token : string) (fresh : nat) : M instance unit :=
  do connecting <- gets (fun i => isConnecting (core i)) ;
  if connecting then ret tt
  else
    do connected <- gets (fun i => isConnected (core i)) ;
    do current <- gets authToken ;
    if connected && bool_decide (current = Some token) then ret tt
    else
      lift (modify (set_isConnecting true)) ;;
      do sock <- gets (fun i => socket (core i)) ;
      match sock with
      | Some _ => lift socket_disconnect ;; lift (modify (set_socket None))
      | None => ret tt
      end ;;
      modify (fun i => {| core := core i; authToken := Some token;
                          callHandlers := callHandlers i |}) ;;
      lift (modify (set_socket (Some fresh))).

End Library.
End Lifecycle.

(** ** What the page shows and what can happen to it:
    [EnhancedChatPage.jsx], continued *)
Module ChatPageView.
Import Js CallService ChatPage.



(** The call buttons are rendered with [disabled={!!activeCall}], lines 456
    and 465 *)
Definition callButtonsDisabled (s : page) : bool :=
  match activeCall s with Some _ => true | None => false end.

(** What reaches the page: the five call events of the socket service
    (registered at lines 126-130), the two buttons of the notification, the
    call buttons and the [onCallEnd] callback of the call component. *)
Inductive action : Type :=
| CallIncoming (callData : obj)
| CallAccepted (callData : obj)
| CallRejected (callData : obj)
| CallEnded (callData : obj)
| CallError (errorData : obj)
| AcceptIncoming
| RejectIncoming
| Initiate (chat_id : option string) (kind : string)
| OnCallEnd.

Section Server.
Variable server : request -> response.

(** The handler of an action, as the render [seen] created it *)
Definition handle (seen : page) (a : action) : M page unit :=
  match a with
  | CallIncoming d => handleIncomingCall seen d
  | CallAccepted d => handleCallAccepted d
  | CallRejected d => handleCallRejected d
  | CallEnded d => handleCallEnded d
  | CallError d => handleCallError d
  | AcceptIncoming => handleAcceptIncomingCall server seen
  | RejectIncoming => handleRejectIncomingCall server seen
  | Initiate chat_id kind => handleCallInitiate server seen chat_id kind
  | OnCallEnd => handleCallEnd
  end.

(** A sequence of actions, each handled by the closure of some render *)
Definition handleAll (trace : list (page * action)) : M page unit :=
  forEach trace (fun step => handle step.1 step.2).

End Server.





(** Everything that writes the two calls of the page: the handlers, as the
    closures of some render, and the effect of [chatId]. *)
Inductive event : Type :=
| Handled (seen : page) (a : action)
| ChatId (chatId : option string) (details : option string)
         (found : option obj).




End ChatPageView.

(** ** The outgoing side of a call session and what it displays:
    [EnhancedVideoCall.jsx], continued *)
Module VideoCallControls.
Import Js CallService VideoCall.

Section Render.
Variable server : request -> response.
Variable rtc : media.

(** [createOffer(callId)], lines 425-456 *)
Definition createOffer (id : option string) : M component unit :=
  try_catch
    (do pc <- gets peerConnectionRef ;
     match pc with
     | None => throw "Peer connection not initialized"
     | Some _ => ret tt
     end ;;
     withPeer (fun _ => perform rtc CreateOffer) ;;
     setLocalDescription rtc (createdOffer rtc) ;;
     do _r <- sendOffer server record id (createdOffer rtc) ;
     setCallStatus "ringing")
    (fun msg =>
       setError (message_or msg "Failed to create offer") ;;
       setCallStatus "failed").

(** [handleIceCandidate(candidate, callId)], lines 500-512 *)
Definition handleIceCandidate (c : string) (id : option string)
    : M component unit :=
  try_catch
    (do _r <- sendIceCandidate server record id c ;
     ret tt)
    (fun _error => ret tt).

(** [peerConnectionRef.current.onicecandidate], lines 352-363, created by
    [setupWebRTC(callId)]; [c] is [event.candidate] *)
Definition onicecandidate (id : option string) (c : option string)
    : M component unit :=
  match c with
  | Some c => handleIceCandidate c id
  | None => ret tt
  end.

End Render.

(** [n.toString().padStart(2, '0')] on a natural number *)
Definition padStart2 (digits : string) : string :=
  match String.length digits with
  | 0 => "00" ++ digits
  | 1 => "0" ++ digits
  | _ => digits
  end.

Definition toString (n : nat) : string :=
  NilEmpty.string_of_uint (Nat.to_uint n).

(** [formatDuration(seconds)], lines 813-817 *)
Definition formatDuration (seconds : nat) : string :=
  let mins := seconds / 60 in
  let secs := seconds mod 60 in
  padStart2 (toString mins) ++ ":" ++ padStart2 (toString secs).

(** [getStatusText()], lines 848-865 *)
Definition getStatusText (isIncoming : bool) (callDuration : nat)
    (s : component) : string :=
  match callStatus s with
  | "initiating" => "Connecting..."
  | "ringing" => if isIncoming then "Incoming call" else "Calling..."
  | "connected" => formatDuration callDuration
  | "ended" => "Call ended"
  | "rejected" => "Call rejected"
  | "failed" => "Call failed"
  | _ => "Unknown status"
  end.

(** [getConnectionQualityColor()], lines 867-880 *)
Definition getConnectionQualityColor (s : component) : string :=
  match connectionQuality s with
  | "excellent" => "text-green-500"
  | "good" => "text-green-400"
  | "fair" => "text-yellow-500"
  | "poor" => "text-red-500"
  | _ => "text-gray-500"
  end.

End VideoCallControls.

(** ** More vocabulary of the statements *)

(** Every listener set that exists is non-empty and free of duplicates. *)
Definition tidy (s : Socket.service) : Prop :=
  forall event ls, Socket.eventListeners s !! event = Some ls ->
    ls <> [] /\ NoDup ls.

(** Events are stored only under WebRTC names that nobody listens to. *)
Definition unheard (s : Socket.service) : Prop :=
  forall event ds, Socket.storedWebRTCEvents s !! event = Some ds ->
    Socket.noListeners event s = true /\ includes event "webrtc" = true.


(** A triple of the monad: from a state where [P] holds, [m] does not
    diverge; it returns [a] in a state where [Q a] holds or throws [e] in a
    state where [E e] holds. *)
Definition triple {S A} (P : S -> Prop) (m : Js.M S A)
    (Q : A -> S -> Prop) (E : string -> S -> Prop) : Prop :=
  forall s, P s ->
    match m s with
    | (Js.Normal a, s') => Q a s'
    | (Js.Throw e, s') => E e s'
    | (Js.Diverges, _) => False
    end.

(** [m] keeps [P], whether it returns or throws *)
Definition stable {S A} (P : S -> Prop) (m : Js.M S A) : Prop :=
  triple P m (fun _ => P) (fun _ => P).

(** A property of the status and the error a call component shows *)
Definition shown (Q : string -> option string -> Prop)
    : VideoCall.component -> Prop :=
  fun s => Q (VideoCall.callStatus s) (VideoCall.error s).

(** The call has failed and says why *)
Definition failedWithReason (s : VideoCall.component) : Prop :=
  VideoCall.callStatus s = "failed"
  /\ exists why, VideoCall.error s = Some why /\ why <> "".

(** The status and the error are those of [s0], or the call has failed and
    says why *)
Definition sameOrFailed (s0 s : VideoCall.component) : Prop :=
  (VideoCall.callStatus s = VideoCall.callStatus s0
   /\ VideoCall.error s = VideoCall.error s0)
  \/ failedWithReason s.





(** The component holds no stream, no peer connection and no timer *)
Definition released (s : VideoCall.component) : Prop :=
  VideoCall.localStreamRef s = None
  /\ VideoCall.screenStreamRef s = None
  /\ VideoCall.peerConnectionRef s = None
  /\ VideoCall.isWebRTCSetupRef s = false
  /\ VideoCall.durationIntervalRef s = None
  /\ VideoCall.qualityCheckIntervalRef s = None.

(** The statuses for which [getStatusText] has a text *)
Definition listedStatuses : list string :=
  ["initiating"; "ringing"; "connected"; "ended"; "rejected"; "failed"].

(** * Properties *)

(** ** The transport channel *)
Import Js.

Lemma set_invoked_id s : Socket.set_invoked (Socket.invoked s) s = s.
Proof. by destruct s. Qed.

(** The loop of [emitEvent] calls every listener and swallows what it throws. *)
Lemma forEach_listener throws d ls s :
  forEach ls (fun cb => try_catch (Socket.call throws cb d) (fun _ => ret tt)) s
  = (Normal tt,
     Socket.set_invoked (Socket.invoked s ++ map (fun cb => (cb, d)) ls) s).
Proof.
  revert s. induction ls as [|cb ls IH]; intros s.
  - destruct s; cbn. by rewrite app_nil_r.
  - cbn [forEach map]. unfold bind at 1, try_catch at 1, Socket.call, bind, modify.
    destruct (throws cb d); cbn; rewrite IH; cbn;
      by rewrite <- app_assoc.
Qed.

Lemma emitEvent_run throws event d s :
  Socket.emitEvent throws event d s
  = (Normal tt,
     Socket.set_invoked (Socket.invoked s ++ deliveries event d s) s).
Proof.
  unfold Socket.emitEvent, deliveries, bind, gets.
  destruct (Socket.eventListeners s !! event) as [ls|]; cbn.
  - apply forEach_listener.
  - destruct s; cbn. by rewrite app_nil_r.
Qed.

(** C9.  Event fan-out isolates subscriber failures: whatever the listeners
    of an event do when called, [emitEvent] completes normally, and it has
    called every listener registered for the event, once each and in order,
    with the payload; nothing else of the service changes. *)
Theorem emitEvent_isolates_listener_failures throws event d s :
  outcome (Socket.emitEvent throws event d) s = Normal tt
  /\ Socket.invoked (exec (Socket.emitEvent throws event d) s)
     = Socket.invoked s ++ deliveries event d s
  /\ exec (Socket.emitEvent throws event d) s
     = Socket.set_invoked (Socket.invoked s ++ deliveries event d s) s.
Proof.
  unfold outcome, exec. rewrite emitEvent_run. by cbn.
Qed.

(** A listener that throws between two that do not: all three are called. *)
Example emitEvent_middle_listener_throws :
  let throws := fun (cb : Socket.callback) (_ : payload) => Nat.eqb cb 2 in
  let s := exec (Socket.on throws "user_online" 1 ;;
                 Socket.on throws "user_online" 2 ;;
                 Socket.on throws "user_online" 3) Socket.constructor in
  Socket.emitEvent throws "user_online" stamped s
  = (Normal tt,
     Socket.set_invoked [(1, stamped); (2, stamped); (3, stamped)] s).
Proof. reflexivity. Qed.

(** *** Sending while disconnected *)

Lemma emit_disconnected event d s :
  Socket.isConnected s = false ->
  Socket.emit event d s
  = (Normal tt,
     Socket.set_messageQueue (Socket.messageQueue s ++ [(event, d)]) s).
Proof.
  intros Hc. unfold Socket.emit, bind, gets, modify. by rewrite Hc.
Qed.

(** Sending a batch while disconnected appends it to the queue. *)
Lemma emit_all_disconnected msgs s :
  Socket.isConnected s = false ->
  forEach msgs (fun m => Socket.emit m.1 m.2) s
  = (Normal tt, Socket.set_messageQueue (Socket.messageQueue s ++ msgs) s).
Proof.
  revert s. induction msgs as [|[event d] msgs IH]; intros s Hc.
  - cbn. rewrite app_nil_r. by destruct s.
  - cbn [forEach]. unfold bind at 1. cbn [fst snd].
    rewrite emit_disconnected by done. rewrite IH by done.
    cbn. by rewrite <- app_assoc.
Qed.

(** With a socket and the connected flag set, the loop of
    [processMessageQueue] transmits the whole queue in order and ends. *)
Lemma processMessageQueue_flushes fuel s k :
  Socket.isConnected s = true ->
  Socket.socket s = Some k ->
  length (Socket.messageQueue s) <= fuel ->
  Socket.processMessageQueue fuel s
  = (Normal tt,
     Socket.set_messageQueue []
       (Socket.set_wire (Socket.wire s ++ Socket.messageQueue s) s)).
Proof.
  destruct s as [sock c cing ra el q st hb w inv]. cbn. intros -> ->.
  revert fuel w. induction q as [|[event d] q IH]; intros fuel w Hlen.
  - destruct fuel; cbn; by rewrite app_nil_r.
  - destruct fuel as [|fuel]; [cbn in Hlen; lia|].
    cbn in Hlen. cbn. specialize (IH fuel (w ++ [(event, d)])).
    cbn in IH. rewrite IH by lia. by rewrite <- app_assoc.
Qed.

Lemma on_connect_run throws fuel s k :
  Socket.socket s = Some k ->
  length (Socket.messageQueue s) <= fuel ->
  Socket.on_connect throws fuel s
  = (Normal tt,
     let s' :=
       Socket.set_heartbeatInterval (Some 30000%N)
         (Socket.set_messageQueue []
            (Socket.set_wire (Socket.wire s ++ Socket.messageQueue s)
               (Socket.set_reconnectAttempts 0
                  (Socket.set_isConnecting false
                     (Socket.set_isConnected true s))))) in
     Socket.set_invoked
       (Socket.invoked s
        ++ deliveries "connection_success" stamped s)
       s').
Proof.
  intros Hsock Hlen. unfold Socket.on_connect.
  unfold bind at 1, modify at 1. unfold bind at 1, modify at 1.
  unfold bind at 1, modify at 1. unfold bind at 1.
  rewrite (processMessageQueue_flushes fuel _ k) by (destruct s; cbn in *; done).
  unfold bind at 1, Socket.startHeartbeat, modify. rewrite emitEvent_run.
  by destruct s.
Qed.

(** C5.  [emit] never throws for lack of a connection: while the service is
    disconnected every message sent is appended to the queue and nothing goes
    out; when the socket then connects, the handler flushes the whole queue,
    so that the wire has received every queued message exactly once, in the
    order of sending, and the queue is empty. *)
Theorem send_while_disconnected_is_queued_then_flushed throws msgs fuel s k :
  Socket.isConnected s = false ->
  Socket.socket s = Some k ->
  length (Socket.messageQueue s) + length msgs <= fuel ->
  let sending := forEach msgs (fun m => Socket.emit m.1 m.2) in
  let queued := exec sending s in
  let flushed := exec (Socket.on_connect throws fuel) queued in
  outcome sending s = Normal tt
  /\ Socket.messageQueue queued = Socket.messageQueue s ++ msgs
  /\ Socket.wire queued = Socket.wire s
  /\ outcome (Socket.on_connect throws fuel) queued = Normal tt
  /\ Socket.wire flushed = Socket.wire s ++ Socket.messageQueue s ++ msgs
  /\ Socket.messageQueue flushed = [].
Proof.
  intros Hc Hsock Hfuel sending queued flushed.
  subst flushed queued sending. unfold outcome, exec.
  rewrite emit_all_disconnected by done. cbn [fst snd].
  rewrite (on_connect_run throws fuel _ k);
    [|by destruct s|destruct s; cbn in *; rewrite length_app; lia].
  by destruct s.
Qed.

(** Two messages sent before the first connection go out in that order. *)
Lemma send_while_disconnected_witness :
  Socket.isConnected Sample.connecting = false
  /\ Socket.socket Sample.connecting = Some 1
  /\ length (Socket.messageQueue Sample.connecting) + 2 <= 2
  /\ Socket.wire
       (exec (Socket.on_connect Sample.quiet 2)
          (exec (Socket.emit "typing_start" (forChat "chat-1") ;;
                 Socket.emit "typing_stop" (forChat "chat-1") ;;
                 ret tt)
             Sample.connecting))
     = [("typing_start", forChat "chat-1"); ("typing_stop", forChat "chat-1")].
Proof.
  split; [reflexivity|]. split; [reflexivity|]. split; [cbn; lia|].
  exact (proj1 (proj2 (proj2 (proj2 (proj2
    (send_while_disconnected_is_queued_then_flushed Sample.quiet
       [("typing_start", forChat "chat-1"); ("typing_stop", forChat "chat-1")]
       2 Sample.connecting 1 eq_refl eq_refl (le_n 2))))))).
Defined.

(** *** Exhausted reconnection *)

Lemma on_reconnect_failed_run throws s :
  Socket.on_reconnect_failed throws s
  = (Normal tt,
     Socket.set_invoked
       (Socket.invoked s
        ++ deliveries "reconnection_failed" stamped s)
       (Socket.set_isConnecting false s)).
Proof.
  unfold Socket.on_reconnect_failed, bind, modify. rewrite emitEvent_run.
  by destruct s.
Qed.

Lemma bind_normal {S A B} (m : M S A) (k : A -> M S B) s a s1 :
  m s = (Normal a, s1) -> bind m k s = k a s1.
Proof. intros H. unfold bind. by rewrite H. Qed.

Lemma on_disconnect_run throws reason s :
  Socket.on_disconnect throws reason s
  = (Normal tt,
     Socket.set_invoked
       (Socket.invoked s ++ deliveries "disconnection" (becauseOf reason) s)
       (Socket.set_isConnecting false (Socket.set_isConnected false s))).
Proof.
  unfold Socket.on_disconnect, bind, modify. rewrite emitEvent_run.
  by destruct s.
Qed.

(** An event that the Manager emits reaches no handler of the service. *)
Lemma emitted_by_the_manager throws fuel name a s :
  Socket.emitted throws fuel Socket.TheManager name a s = (Normal tt, s).
Proof. reflexivity. Qed.

Lemma emitted_disconnect throws fuel reason s :
  Socket.emitted throws fuel Socket.TheSocket "disconnect"
    (Socket.Reason reason) s
  = Socket.on_disconnect throws reason s.
Proof.
  unfold Socket.emitted.
  set (l := filter _ Socket.installed). vm_compute in l. subst l.
  cbn [forEach Socket.handle snd]. unfold bind.
  by rewrite on_disconnect_run.
Qed.

Lemma emitted_reconnect_failed throws fuel a s :
  Socket.emitted throws fuel Socket.TheSocket "reconnect_failed" a s
  = Socket.on_reconnect_failed throws s.
Proof.
  unfold Socket.emitted.
  set (l := filter _ Socket.installed). vm_compute in l. subst l.
  cbn [forEach Socket.handle snd]. unfold bind.
  rewrite on_reconnect_failed_run. by destruct a.
Qed.

Lemma on_connect_error_run throws msg s :
  Socket.on_connect_error throws msg s
  = (Normal tt,
     Socket.set_invoked
       (Socket.invoked s
        ++ deliveries "connection_error" (Socket.errorOf msg) s)
       (Socket.set_isConnecting false (Socket.set_isConnected false s))).
Proof.
  unfold Socket.on_connect_error, bind, modify. rewrite emitEvent_run.
  by destruct s.
Qed.

Lemma emitted_connect_error throws fuel msg s :
  Socket.emitted throws fuel Socket.TheSocket "connect_error"
    (Socket.Failure msg) s
  = Socket.on_connect_error throws msg s.
Proof.
  unfold Socket.emitted.
  set (l := filter _ Socket.installed). vm_compute in l. subst l.
  cbn [forEach Socket.handle snd]. unfold bind.
  by rewrite on_connect_error_run.
Qed.

(** C6 fails on the code.  The handler of [reconnect_failed] is installed on
    the Socket, as are those of [reconnect_attempt] and [reconnect], while
    the retry loop of the library speaks through the Manager; all the Socket
    emits while the loop runs is a [connect_error] for an attempt that
    failed.  So when the connection is lost and the library then runs out
    of attempts, the handler of [disconnect] clears both flags and tells the
    subscribers of [disconnection], the handler of [connect_error] tells
    those of [connection_error] of every failed attempt, and whatever the
    Manager emits runs no handler.  The subscribers of no other name are
    called: nobody is told that the attempts are exhausted.  The attempt
    counter never moves; the flags stay cleared and the listeners and the
    queue are kept.  Had the Socket emitted [reconnect_failed], the handler
    would have run. *)
Theorem exhausted_reconnection_is_never_reported
    throws fuel reason retries s :
  Forall (fun ev =>
    ev.1.1 = Socket.TheManager
    \/ exists msg,
         ev = (Socket.TheSocket, "connect_error", Socket.Failure msg)) retries ->
  let lost :=
    Socket.emitted throws fuel Socket.TheSocket "disconnect"
      (Socket.Reason reason) ;;
    forEach retries (fun ev => Socket.emitted throws fuel ev.1.1 ev.1.2 ev.2) in
  let final := exec lost s in
  outcome lost s = Normal tt
  /\ Socket.invoked final
     = Socket.invoked s
       ++ deliveries "disconnection" (becauseOf reason) s
       ++ flat_map
            (fun ev =>
               match ev with
               | (Socket.TheSocket, _, Socket.Failure msg) =>
                   deliveries "connection_error" (Socket.errorOf msg) s
               | _ => []
               end) retries
  /\ Socket.isConnected final = false
  /\ Socket.isConnecting final = false
  /\ Socket.eventListeners final = Socket.eventListeners s
  /\ Socket.messageQueue final = Socket.messageQueue s
  /\ Socket.reconnectAttempts final = Socket.reconnectAttempts s
  /\ Socket.emitted throws fuel Socket.TheSocket "reconnect_failed"
       Socket.Nothing s
     = Socket.on_reconnect_failed throws s.
Proof.
  intros Hall lost final.
  set (told := fun ev : Socket.emitter * string * Socket.argument =>
         match ev with
         | (Socket.TheSocket, _, Socket.Failure msg) =>
             deliveries "connection_error" (Socket.errorOf msg) s
         | _ => []
         end).
  assert (Hretry : forall s1,
    Socket.eventListeners s1 = Socket.eventListeners s ->
    Socket.isConnected s1 = false ->
    Socket.isConnecting s1 = false ->
    forEach retries (fun ev => Socket.emitted throws fuel ev.1.1 ev.1.2 ev.2) s1
    = (Normal tt,
       Socket.set_invoked (Socket.invoked s1 ++ flat_map told retries) s1)).
  { clear lost final.
    induction Hall as [|[[e name] a] retries He _ IH];
      intros s1 Hl Hc Hcing.
    - destruct s1; cbn. by rewrite app_nil_r.
    - cbn [forEach flat_map]. cbn [fst snd] in *.
      destruct He as [->|[msg [= -> -> ->]]].
      + rewrite (bind_normal _ _ _ _ _
                   (emitted_by_the_manager throws fuel name a s1)).
        rewrite IH by assumption. subst told; cbn beta iota. reflexivity.
      + rewrite (bind_normal _ _ _ _ _
                   (eq_trans (emitted_connect_error throws fuel msg s1)
                             (on_connect_error_run throws msg s1))).
        rewrite IH by first [exact Hl|reflexivity].
        subst told; cbn beta iota. clear IH. unfold deliveries. rewrite Hl.
        destruct s1; cbn in Hl, Hc, Hcing |- *. subst. by rewrite <- app_assoc. }
  assert (Hrun : lost s
    = (Normal tt,
       Socket.set_invoked
         (Socket.invoked s
          ++ deliveries "disconnection" (becauseOf reason) s
          ++ flat_map told retries)
         (Socket.set_isConnecting false (Socket.set_isConnected false s)))).
  { subst lost. unfold bind at 1. rewrite emitted_disconnect.
    rewrite on_disconnect_run. rewrite Hretry by (destruct s; reflexivity).
    destruct s; cbn. by rewrite <- app_assoc. }
  subst final. unfold outcome, exec. rewrite Hrun.
  cbn [fst snd]. split; [reflexivity|].
  split; [by destruct s|]. split; [by destruct s|]. split; [by destruct s|].
  split; [by destruct s|]. split; [by destruct s|]. split; [by destruct s|].
  apply emitted_reconnect_failed.
Qed.


(** A connected service with a subscriber of [connection_failed] and one of
    [reconnection_failed] loses its connection, and the library gives up
    after its three attempts: neither subscriber is called. *)
Lemma exhausted_reconnection_witness :
  let s :=
    exec (Socket.on Sample.quiet "connection_failed" 7 ;;
          Socket.on Sample.quiet "reconnection_failed" 8 ;;
          Socket.on_connect Sample.quiet 0) Sample.connecting in
  let retries :=
    [(Socket.TheManager, "reconnect_attempt", Socket.Attempt 1);
     (Socket.TheSocket, "connect_error", Socket.Failure "timeout");
     (Socket.TheManager, "reconnect_error", Socket.Failure "timeout");
     (Socket.TheManager, "reconnect_attempt", Socket.Attempt 2);
     (Socket.TheSocket, "connect_error", Socket.Failure "timeout");
     (Socket.TheManager, "reconnect_error", Socket.Failure "timeout");
     (Socket.TheManager, "reconnect_attempt", Socket.Attempt 3);
     (Socket.TheSocket, "connect_error", Socket.Failure "timeout");
     (Socket.TheManager, "reconnect_error", Socket.Failure "timeout");
     (Socket.TheManager, "reconnect_failed", Socket.Nothing)] in
  Forall (fun ev =>
    ev.1.1 = Socket.TheManager
    \/ exists msg,
         ev = (Socket.TheSocket, "connect_error", Socket.Failure msg)) retries
  /\ Socket.invoked
       (exec (Socket.emitted Sample.quiet 0 Socket.TheSocket "disconnect"
                (Socket.Reason "transport close") ;;
              forEach retries
                (fun ev => Socket.emitted Sample.quiet 0 ev.1.1 ev.1.2 ev.2)) s)
     = [].
Proof.
  intros s retries.
  assert (Hall : Forall (fun ev =>
    ev.1.1 = Socket.TheManager
    \/ exists msg,
         ev = (Socket.TheSocket, "connect_error", Socket.Failure msg)) retries).
  { subst retries.
    repeat (apply Forall_cons_2;
            [first [left; reflexivity|right; eexists; reflexivity]|]).
    constructor. }
  split; [exact Hall|].
  pose proof (proj1 (proj2
    (exhausted_reconnection_is_never_reported Sample.quiet 0
       "transport close" retries s Hall))) as Hinvoked.
  cbv zeta in Hinvoked. etransitivity; [exact Hinvoked|]. vm_compute. reflexivity.
Defined.

(** *** Buffering of signaling events *)

(** Replaying a list of stored events calls the listeners of the event once
    for each of them, in the order of storage. *)
Lemma forEach_emitEvent throws event ds s :
  forEach ds (fun d => Socket.emitEvent throws event d) s
  = (Normal tt,
     Socket.set_invoked
       (Socket.invoked s ++ flat_map (fun d => deliveries event d s) ds) s).
Proof.
  revert s. induction ds as [|d ds IH]; intros s.
  - destruct s; cbn. by rewrite app_nil_r.
  - cbn [forEach flat_map]. unfold bind. rewrite emitEvent_run, IH.
    destruct s; cbn. by rewrite <- app_assoc.
Qed.

Lemma storeWebRTCEvent_run event d s :
  Socket.storeWebRTCEvent event d s
  = (Normal tt,
     Socket.set_storedWebRTCEvents
       (<[event := default [] (Socket.storedWebRTCEvents s !! event) ++ [d]]>
          (Socket.storedWebRTCEvents s)) s).
Proof.
  unfold Socket.storeWebRTCEvent, bind, modify.
  destruct (Socket.storedWebRTCEvents s !! event) as [old|] eqn:E; cbn.
  - by rewrite E.
  - by rewrite lookup_insert_eq, insert_insert_eq.
Qed.

Lemma processStoredWebRTCEvents_run throws event s :
  Socket.processStoredWebRTCEvents throws event s
  = (Normal tt,
     match Socket.storedWebRTCEvents s !! event with
     | Some ds =>
         Socket.set_storedWebRTCEvents
           (delete event (Socket.storedWebRTCEvents s))
           (Socket.set_invoked
              (Socket.invoked s ++ flat_map (fun d => deliveries event d s) ds) s)
     | None => s
     end).
Proof.
  unfold Socket.processStoredWebRTCEvents, bind at 1, gets.
  destruct (Socket.storedWebRTCEvents s !! event) as [ds|]; [|done].
  unfold bind. by rewrite forEach_emitEvent.
Qed.

Lemma on_run throws event h s :
  Socket.on throws event h s
  = let registered :=
      Socket.set_eventListeners
        (<[event := Socket.set_add h
                      (default [] (Socket.eventListeners s !! event))]>
           (Socket.eventListeners s)) s in
    if includes event "webrtc"
    then Socket.processStoredWebRTCEvents throws event registered
    else (Normal tt, registered).
Proof.
  unfold Socket.on, bind, modify.
  destruct (Socket.eventListeners s !! event) as [ls|] eqn:E; cbn.
  - rewrite E. by destruct (includes event "webrtc").
  - rewrite lookup_insert_eq, insert_insert_eq.
    by destruct (includes event "webrtc").
Qed.

(** What the handlers of [webrtc:offer] and [webrtc:ice-candidate] do with an
    event, followed by the registration of the first listener: the listener
    receives every event stored under the name, the new one last, each once,
    and the store is cleared. *)
Lemma stored_then_replayed throws event d h s :
  includes event "webrtc" = true ->
  Socket.eventListeners s !! event = None ->
  ((do none <- gets (Socket.noListeners event) ;
    when none (Socket.storeWebRTCEvent event d) ;;
    Socket.emitEvent throws event d) ;;
   Socket.on throws event h) s
  = (Normal tt,
     Socket.set_invoked
       (Socket.invoked s
        ++ map (fun x => (h, x))
               (default [] (Socket.storedWebRTCEvents s !! event) ++ [d]))
       (Socket.set_storedWebRTCEvents
          (delete event (Socket.storedWebRTCEvents s))
          (Socket.set_eventListeners
             (<[event := [h]]> (Socket.eventListeners s)) s))).
Proof.
  intros Hinc Hnone.
  unfold bind at 1. unfold bind at 1, gets at 1, Socket.noListeners.
  rewrite Hnone. cbn [when].
  unfold bind at 1. rewrite storeWebRTCEvent_run, emitEvent_run.
  rewrite on_run, Hinc. cbn zeta. rewrite processStoredWebRTCEvents_run.
  destruct s as [sock c cing ra el q st hb w inv]. cbn in *.
  unfold deliveries. cbn. rewrite Hnone. cbn.
  rewrite !lookup_insert_eq, delete_insert_eq. cbn.
  rewrite app_nil_r. do 3 f_equal.
Qed.

(** An offer that arrives before its listener reaches the listener once. *)
Lemma offer_before_listener_is_replayed_once throws d h s :
  Socket.eventListeners s !! "webrtc_offer" = None ->
  Socket.storedWebRTCEvents s !! "webrtc_offer" = None ->
  Socket.invoked
    (exec (Socket.receive throws "webrtc:offer" d ;;
           Socket.on throws "webrtc_offer" h) s)
  = Socket.invoked s ++ [(h, d)].
Proof.
  intros Hl Hs. unfold exec. cbn [Socket.receive].
  rewrite stored_then_replayed by done. cbn. by rewrite Hs.
Qed.

(** So does an ICE candidate. *)
Lemma candidate_before_listener_is_replayed_once throws d h s :
  Socket.eventListeners s !! "webrtc_ice_candidate" = None ->
  Socket.storedWebRTCEvents s !! "webrtc_ice_candidate" = None ->
  Socket.invoked
    (exec (Socket.receive throws "webrtc:ice-candidate" d ;;
           Socket.on throws "webrtc_ice_candidate" h) s)
  = Socket.invoked s ++ [(h, d)].
Proof.
  intros Hl Hs. unfold exec. cbn [Socket.receive].
  rewrite stored_then_replayed by done. cbn. by rewrite Hs.
Qed.

(** C1 fails on the code for answers.  The handler of [webrtc:answer] hands
    the event to [emitEvent] without storing it: when an answer arrives while
    no listener is registered for [webrtc_answer] (and nothing is stored under
    that name), it is not buffered and reaches nobody, and the listener that
    registers afterwards is not called either: the answer is lost. *)
Theorem answer_before_listener_is_lost throws d h s :
  Socket.eventListeners s !! "webrtc_answer" = None ->
  Socket.storedWebRTCEvents s !! "webrtc_answer" = None ->
  let arrived := exec (Socket.receive throws "webrtc:answer" d) s in
  let registered := exec (Socket.on throws "webrtc_answer" h) arrived in
  arrived = s
  /\ Socket.eventListeners registered !! "webrtc_answer" = Some [h]
  /\ Socket.invoked registered = Socket.invoked s
  /\ Socket.storedWebRTCEvents registered = Socket.storedWebRTCEvents s.
Proof.
  intros Hl Hs arrived registered.
  assert (Ha : arrived = s).
  { subst arrived. unfold exec. cbn [Socket.receive].
    rewrite emitEvent_run. unfold deliveries. rewrite Hl. cbn.
    rewrite app_nil_r. by destruct s. }
  subst registered. rewrite Ha. unfold exec. rewrite on_run.
  cbn zeta. change (includes "webrtc_answer" "webrtc") with true. cbn iota.
  rewrite processStoredWebRTCEvents_run.
  destruct s as [sock c cing ra el q st hb w inv]. cbn in *.
  rewrite Hs, Hl. cbn. by rewrite lookup_insert_eq.
Qed.

(** The first event on a fresh service is an answer. *)
Lemma answer_before_listener_witness :
  Socket.eventListeners Socket.constructor !! "webrtc_answer" = None
  /\ Socket.storedWebRTCEvents Socket.constructor !! "webrtc_answer" = None
  /\ Socket.invoked
       (exec (Socket.receive Sample.quiet "webrtc:answer"
                (Sample.signaling None (Some "remote answer") None) ;;
              Socket.on Sample.quiet "webrtc_answer" 7)
          Socket.constructor)
     = [].
Proof.
  split; [reflexivity|]. split; [reflexivity|].
  exact (proj1 (proj2 (proj2
    (answer_before_listener_is_lost Sample.quiet
       (Sample.signaling None (Some "remote answer") None) 7
       Socket.constructor eq_refl eq_refl)))).
Defined.

(** ** The session registry *)

Lemma sameCall_true active d :
  callId active = callId d -> ChatPage.sameCall (Some active) d = true.
Proof. intros H. cbn. by apply bool_decide_eq_true_2. Qed.

Lemma sameCall_false active d :
  callId active <> callId d -> ChatPage.sameCall (Some active) d = false.
Proof. intros H. cbn. by apply bool_decide_eq_false_2. Qed.

(** C7 fails on the code for the accept intent and for the incoming-call
    signal.  Both handlers compare the identifier with the active call that
    their closure captured, and the closures that run hold none: the Accept
    button is rendered only without an active call, and the listener of
    [call_incoming] is the closure of the render in which the listeners
    were registered.  Let a call be active, [seen] be such a render with the
    incoming call still in it, and the identifiers be equal.  Then pressing
    Accept asks the call service; when the service fails with a message
    that does not speak of the ringing state, the error is surfaced and the
    active call stays as it was.  An incoming-call signal stores the call
    as the incoming call and leaves the status of the active call alone.
    Only the accepted signal, which reads the current state, reconciles the
    status without a request and without an error. *)
Theorem duplicate_acceptance_is_reconciled_by_the_signal_only
    server seen incoming active d msg s :
  ChatPage.activeCall seen = None ->
  ChatPage.incomingCall seen = Some incoming ->
  ChatPage.activeCall s = Some active ->
  callId incoming = callId active ->
  callId d = callId active ->
  server (CallService.AcceptCall (callId incoming)) = CallService.Fails msg ->
  includes msg "not in ringing state" = false ->
  ChatPage.handleAcceptIncomingCall server seen s
  = (Normal tt,
     {| ChatPage.activeCall := Some active; ChatPage.incomingCall := None;
        ChatPage.error := Some (message_or msg "Failed to accept call");
        ChatPage.requests :=
          ChatPage.requests s ++ [CallService.AcceptCall (callId incoming)] |})
  /\ ChatPage.handleIncomingCall seen d s
     = (Normal tt,
        {| ChatPage.activeCall := Some active;
           ChatPage.incomingCall := Some d;
           ChatPage.error := ChatPage.error s;
           ChatPage.requests := ChatPage.requests s |})
  /\ ChatPage.handleCallAccepted d s
     = (Normal tt,
        {| ChatPage.activeCall := Some (with_status "connected" active);
           ChatPage.incomingCall := None; ChatPage.error := None;
           ChatPage.requests := ChatPage.requests s |}).
Proof.
  intros Hseen Hinc Hs Hi Hd Hserver Hmsg.
  unfold ChatPage.handleAcceptIncomingCall, ChatPage.handleIncomingCall,
    ChatPage.handleCallAccepted.
  rewrite Hseen, Hinc. cbn [ChatPage.sameCall].
  unfold try_catch, bind, CallService.acceptCall, CallService.post,
    ChatPage.setActiveCall, ChatPage.setIncomingCall, ChatPage.setError,
    modify, ChatPage.connected.
  cbn. rewrite Hserver. cbn. rewrite Hmsg. cbn. rewrite Hs.
  rewrite sameCall_true by done. by cbn.
Qed.

(** The callee sees the notification of [c1]; the accepted signal of [c1]
    arrives, and Accept is pressed on the render that still shows the
    notification, with the call service out of reach. *)
Lemma duplicate_acceptance_witness :
  let seen :=
    {| ChatPage.activeCall := None;
       ChatPage.incomingCall := Some (Sample.call "c1" "ringing");
       ChatPage.error := None; ChatPage.requests := [] |} in
  let s := exec (ChatPage.handleCallAccepted (Sample.call "c1" "connected")) seen in
  ChatPage.activeCall seen = None
  /\ ChatPage.incomingCall seen = Some (Sample.call "c1" "ringing")
  /\ ChatPage.activeCall s = Some (Sample.call "c1" "connected")
  /\ callId (Sample.call "c1" "ringing") = callId (Sample.call "c1" "connected")
  /\ Sample.offline (CallService.AcceptCall (callId (Sample.call "c1" "ringing")))
     = CallService.Fails "Network error. Please check your connection."
  /\ includes "Network error. Please check your connection."
       "not in ringing state" = false
  /\ ChatPage.handleAcceptIncomingCall Sample.offline seen s
     = (Normal tt,
        {| ChatPage.activeCall := Some (Sample.call "c1" "connected");
           ChatPage.incomingCall := None;
           ChatPage.error :=
             Some (message_or "Network error. Please check your connection."
                     "Failed to accept call");
           ChatPage.requests :=
             ChatPage.requests s
             ++ [CallService.AcceptCall (callId (Sample.call "c1" "ringing"))] |}).
Proof.
  intros seen s.
  split; [reflexivity|]. split; [reflexivity|]. split; [reflexivity|].
  split; [reflexivity|]. split; [reflexivity|]. split; [reflexivity|].
  exact (proj1 (duplicate_acceptance_is_reconciled_by_the_signal_only
                  Sample.offline seen (Sample.call "c1" "ringing")
                  (Sample.call "c1" "connected") (Sample.call "c1" "ringing")
                  "Network error. Please check your connection." s
                  eq_refl eq_refl eq_refl eq_refl eq_refl eq_refl eq_refl)).
Defined.

(** C4, as the code has it.  While a call is active, as the handlers captured
    it: [handleCallInitiate] sends nothing to the call service and sets the
    error [Another call is already active], leaving both calls as they were;
    [handleIncomingCall] with a different identifier records the call as the
    incoming call and changes neither the active call nor the error.  The
    handlers of [call_ended], [call_rejected], [call_error] and the
    [onCallEnd] callback clear the active call. *)
Theorem second_call_while_active server seen active chat kind d s :
  ChatPage.activeCall seen = Some active ->
  callId active <> callId d ->
  ChatPage.handleCallInitiate server seen chat kind s
  = (Normal tt,
     {| ChatPage.activeCall := ChatPage.activeCall s;
        ChatPage.incomingCall := ChatPage.incomingCall s;
        ChatPage.error := Some "Another call is already active";
        ChatPage.requests := ChatPage.requests s |})
  /\ ChatPage.handleIncomingCall seen d s
     = (Normal tt,
        {| ChatPage.activeCall := ChatPage.activeCall s;
           ChatPage.incomingCall := Some d;
           ChatPage.error := ChatPage.error s;
           ChatPage.requests := ChatPage.requests s |})
  /\ ChatPage.activeCall (exec (ChatPage.handleCallEnded d) s) = None
  /\ ChatPage.activeCall (exec (ChatPage.handleCallRejected d) s) = None
  /\ ChatPage.activeCall (exec (ChatPage.handleCallError d) s) = None
  /\ ChatPage.activeCall (exec ChatPage.handleCallEnd s) = None.
Proof.
  intros Hseen Hne.
  unfold ChatPage.handleCallInitiate, ChatPage.handleIncomingCall.
  rewrite Hseen, sameCall_false by done.
  by repeat split.
Qed.

(** In call [c1], the user starts another call. *)
Lemma second_call_while_active_witness :
  let s :=
    {| ChatPage.activeCall := Some (Sample.call "c1" "connected");
       ChatPage.incomingCall := None;
       ChatPage.error := None; ChatPage.requests := [] |} in
  ChatPage.activeCall s = Some (Sample.call "c1" "connected")
  /\ callId (Sample.call "c1" "connected") <> callId (Sample.call "c2" "ringing")
  /\ ChatPage.handleCallInitiate Sample.accepting s (Some "chat-2") "audio" s
     = (Normal tt,
        {| ChatPage.activeCall := Some (Sample.call "c1" "connected");
           ChatPage.incomingCall := None;
           ChatPage.error := Some "Another call is already active";
           ChatPage.requests := [] |}).
Proof.
  intros s.
  assert (Hne : callId (Sample.call "c1" "connected")
                <> callId (Sample.call "c2" "ringing")) by discriminate.
  split; [reflexivity|]. split; [exact Hne|].
  exact (proj1 (second_call_while_active Sample.accepting s
                  (Sample.call "c1" "connected") (Some "chat-2") "audio"
                  (Sample.call "c2" "ringing") s eq_refl Hne)).
Defined.

(** C4, as stated, fails for incoming calls: with call [c1] active, the
    signal of another call [c2] is not rejected with a condition; it
    completes normally, sets no error and is kept as the incoming call. *)
Lemma second_incoming_call_is_not_rejected :
  let s :=
    {| ChatPage.activeCall := Some (Sample.call "c1" "connected");
       ChatPage.incomingCall := None;
       ChatPage.error := None; ChatPage.requests := [] |} in
  ChatPage.handleIncomingCall s (Sample.call "c2" "ringing") s
  = (Normal tt,
     {| ChatPage.activeCall := Some (Sample.call "c1" "connected");
        ChatPage.incomingCall := Some (Sample.call "c2" "ringing");
        ChatPage.error := None; ChatPage.requests := [] |}).
Proof. reflexivity. Qed.

(** ** A call session *)

(** *** Ending and rejecting *)

Lemma forEach_StopTrack tracks s :
  forEach tracks (fun track => VideoCall.note (VideoCall.StopTrack track)) s
  = (Normal tt,
     VideoCall.set_engine
       (VideoCall.engine s ++ map VideoCall.StopTrack tracks) s).
Proof.
  revert s. induction tracks as [|t tracks IH]; intros s.
  - destruct s; cbn. by rewrite app_nil_r.
  - cbn [forEach map]. unfold bind, VideoCall.note at 1, modify.
    rewrite IH. destruct s; cbn. by rewrite <- app_assoc.
Qed.

Lemma cleanup_run s :
  VideoCall.cleanup s
  = (Normal tt,
     VideoCall.set_qualityCheckIntervalRef None
       (VideoCall.set_durationIntervalRef None
          (VideoCall.set_isWebRTCSetupRef false
             (VideoCall.set_peerConnectionRef None
                (VideoCall.set_screenStreamRef None
                   (VideoCall.set_localStreamRef None
                      (VideoCall.set_engine
                         (VideoCall.engine s ++ releases s) s))))))).
Proof.
  unfold VideoCall.cleanup, releases.
  destruct s as [cs cq er ps pc ls ss di qi ws en rq ce].
  unfold bind at 1, gets at 1. cbn [VideoCall.localStreamRef fst snd].
  destruct ls as [ltracks|]; destruct ss as [stracks|]; destruct pc as [peer|];
    unfold bind, gets, modify, VideoCall.note;
    rewrite ?forEach_StopTrack; cbn;
    rewrite ?forEach_StopTrack; cbn;
    rewrite ?app_nil_r, <- ?app_assoc; reflexivity.
Qed.

Lemma callOnCallEnd_run p s :
  VideoCall.callOnCallEnd p s
  = (Normal tt,
     VideoCall.set_callEnds
       (if VideoCall.onCallEnd p then S (VideoCall.callEnds s)
        else VideoCall.callEnds s) s).
Proof.
  unfold VideoCall.callOnCallEnd, when, modify.
  destruct (VideoCall.onCallEnd p); by destruct s.
Qed.

(** C10, as the code has it.  Whatever the server answers, and whether or not
    there is a call identifier, [endCall] completes normally with the status
    [ended], every track of the local and of the screen stream stopped, the
    peer connection closed and its ref empty, and [onCallEnd] called once if
    the parent passed it.  [rejectCall] completes normally with the status
    [rejected] and [onCallEnd] called once if passed; it asks nothing of the
    media engine and leaves the streams and the peer connection in place. *)
Theorem endCall_and_rejectCall_reach_their_terminal_state server p s :
  let ended := exec (VideoCall.endCall server p) s in
  let rejected := exec (VideoCall.rejectCall server p) s in
  let called n := if VideoCall.onCallEnd p then S n else n in
  outcome (VideoCall.endCall server p) s = Normal tt
  /\ VideoCall.callStatus ended = "ended"
  /\ VideoCall.engine ended = VideoCall.engine s ++ releases s
  /\ VideoCall.localStreamRef ended = None
  /\ VideoCall.screenStreamRef ended = None
  /\ VideoCall.peerConnectionRef ended = None
  /\ VideoCall.callEnds ended = called (VideoCall.callEnds s)
  /\ outcome (VideoCall.rejectCall server p) s = Normal tt
  /\ VideoCall.callStatus rejected = "rejected"
  /\ VideoCall.callEnds rejected = called (VideoCall.callEnds s)
  /\ VideoCall.engine rejected = VideoCall.engine s
  /\ VideoCall.localStreamRef rejected = VideoCall.localStreamRef s
  /\ VideoCall.screenStreamRef rejected = VideoCall.screenStreamRef s
  /\ VideoCall.peerConnectionRef rejected = VideoCall.peerConnectionRef s.
Proof.
  intros ended rejected called. subst ended rejected called.
  unfold outcome, exec, VideoCall.endCall, VideoCall.rejectCall.
  unfold CallService.endCall, CallService.rejectCall, CallService.post.
  unfold try_catch, bind, VideoCall.setCallStatus, modify.
  destruct (truthy (VideoCall.currentCallId p));
    [destruct (server (CallService.EndCall _ _));
     destruct (server (CallService.RejectCall _ _))|];
    cbn -[VideoCall.cleanup VideoCall.callOnCallEnd];
    rewrite !cleanup_run;
    cbn -[VideoCall.cleanup VideoCall.callOnCallEnd];
    rewrite !callOnCallEnd_run; cbn;
    destruct (VideoCall.onCallEnd p); destruct s; cbn; repeat split.
Qed.

(** C10, as stated, fails for [rejectCall]: on a component that holds a
    local stream of two tracks and a peer connection, with the server out of
    reach, the call is marked rejected and [onCallEnd] is called, but no
    track is stopped and the peer connection is neither closed nor released. *)
Lemma rejectCall_releases_nothing :
  let rejected :=
    exec (VideoCall.rejectCall Sample.offline Sample.caller) Sample.ringing in
  VideoCall.callStatus rejected = "rejected"
  /\ VideoCall.callEnds rejected = 1
  /\ VideoCall.engine rejected = []
  /\ VideoCall.localStreamRef rejected = Some [1; 2]
  /\ VideoCall.peerConnectionRef rejected = Some Sample.offering.
Proof. repeat split. Qed.

(** *** Quality sampling *)








(** *** Negotiation *)

Lemma queueSignal_run kind d s :
  VideoCall.queueSignal kind d s
  = (Normal tt,
     VideoCall.set_pendingSignals
       (<[callId d := default [] (VideoCall.pendingSignals s !! callId d)
                      ++ [{| VideoCall.eventType := kind; VideoCall.data := d |}]]>
          (VideoCall.pendingSignals s)) s).
Proof. reflexivity. Qed.

(** With a peer connection in place, the loop of
    [processQueuedIceCandidates] hands every candidate to the engine, in
    order, whether or not the engine accepts it. *)
Lemma forEach_addIceCandidate rtc sigs s peer :
  VideoCall.peerConnectionRef s = Some peer ->
  forEach sigs (fun sig =>
    do pc <- gets VideoCall.peerConnectionRef ;
    match pc, candidate (VideoCall.data sig) with
    | Some _, Some c => VideoCall.addIceCandidate rtc c
    | _, _ => ret tt
    end) s
  = (Normal tt,
     VideoCall.set_engine
       (VideoCall.engine s
        ++ map VideoCall.AddIceCandidate
             (omap (fun sig => candidate (VideoCall.data sig)) sigs)) s).
Proof.
  revert s. induction sigs as [|sig sigs IH]; intros s Hpc.
  - destruct s; cbn. by rewrite app_nil_r.
  - set (body := fun sig : VideoCall.signal => _) in *. cbn [forEach].
    assert (Hstep : body sig s
      = (Normal tt,
         VideoCall.set_engine
           (VideoCall.engine s
            ++ map VideoCall.AddIceCandidate
                 (omap (fun sig => candidate (VideoCall.data sig)) [sig])) s)).
    { unfold body, bind, gets. rewrite Hpc. cbn.
      destruct (candidate (VideoCall.data sig)) as [c|]; cbn.
      - unfold VideoCall.addIceCandidate, try_catch, VideoCall.perform, bind,
          gets, modify.
        by destruct (VideoCall.rejects rtc (VideoCall.engine s)
                       (VideoCall.AddIceCandidate c)).
      - destruct s; cbn. by rewrite app_nil_r. }
    unfold bind. rewrite Hstep. rewrite IH by (destruct s; cbn in *; assumption).
    change (sig :: sigs) with ([sig] ++ sigs). rewrite omap_app, map_app.
    destruct s; cbn. by rewrite <- app_assoc.
Qed.

Lemma processQueuedIceCandidates_run rtc seen id s peer :
  VideoCall.peerConnectionRef s = Some peer ->
  VideoCall.pendingSignals seen = VideoCall.pendingSignals s ->
  let applied :=
    VideoCall.set_engine
      (VideoCall.engine s
       ++ map VideoCall.AddIceCandidate (queuedCandidates s id)) s in
  VideoCall.processQueuedIceCandidates rtc seen id s
  = (Normal tt,
     if Nat.ltb 0 (length (pendingCandidates s id)) then
       VideoCall.set_pendingSignals
         (<[id := filter (fun sig => VideoCall.isIceCandidate sig = false)
                         (default [] (VideoCall.pendingSignals s !! id))]>
            (VideoCall.pendingSignals s)) applied
     else applied).
Proof.
  intros Hpc Hseen. unfold VideoCall.processQueuedIceCandidates.
  rewrite Hseen. unfold bind.
  rewrite (forEach_addIceCandidate rtc _ s peer) by done.
  unfold queuedCandidates, pendingCandidates.
  destruct (Nat.ltb 0 _); by destruct s.
Qed.

Lemma setRemoteDescription_run rtc sdp s peer :
  VideoCall.peerConnectionRef s = Some peer ->
  VideoCall.rejects rtc (VideoCall.engine s) (VideoCall.SetRemoteDescription sdp)
  = false ->
  VideoCall.setRemoteDescription rtc sdp s
  = (Normal tt,
     VideoCall.set_peerConnectionRef
       (Some {| VideoCall.remoteDescription := Some sdp;
                VideoCall.localDescription := VideoCall.localDescription peer;
                VideoCall.connectionState := VideoCall.connectionState peer |})
       (VideoCall.set_engine
          (VideoCall.engine s ++ [VideoCall.SetRemoteDescription sdp]) s)).
Proof.
  intros Hpc Hok.
  unfold VideoCall.setRemoteDescription, VideoCall.withPeer, VideoCall.perform,
    bind, gets, modify.
  rewrite Hpc, Hok. destruct s; cbn in *. by subst.
Qed.

(** One early candidate: the listener queues it, and the effect of the
    render that follows, which finds the peer connection still without a
    remote description, skips it and empties the entry of the call. *)
Lemma early_candidate_round server rtc p registered dc c peer s :
  truthy (VideoCall.currentCallId p) = true ->
  callId dc = VideoCall.currentCallId p ->
  candidate dc = Some c ->
  VideoCall.peerConnectionRef s = Some peer ->
  VideoCall.remoteDescription peer = None ->
  default [] (VideoCall.pendingSignals s !! VideoCall.currentCallId p) = [] ->
  (VideoCall.handleIncomingIceCandidate rtc p registered dc ;;
   latest (VideoCall.pendingSignalsEffect server rtc p)) s
  = (Normal tt,
     VideoCall.set_pendingSignals
       (<[VideoCall.currentCallId p := []]> (VideoCall.pendingSignals s)) s).
Proof.
  intros Hid Hdc Hc Hpc Hrd Hnone.
  assert (Hfor : VideoCall.forThisCall p registered dc = true).
  { unfold VideoCall.forThisCall. by rewrite bool_decide_eq_true_2. }
  assert (Hq : VideoCall.handleIncomingIceCandidate rtc p registered dc s
               = VideoCall.queueSignal "ice-candidate" dc s).
  { unfold VideoCall.handleIncomingIceCandidate. rewrite Hfor.
    unfold bind, gets. by rewrite Hpc, Hc, Hrd. }
  rewrite queueSignal_run in Hq. rewrite (bind_normal _ _ _ _ _ Hq).
  unfold latest, VideoCall.pendingSignalsEffect. rewrite Hid.
  rewrite Hdc, Hnone.
  destruct s as [cs cq er ps pc ls ss di qi ws en rq ce]. cbn in *. subst pc.
  rewrite lookup_insert_eq. cbn. unfold bind, gets. cbn.
  rewrite Hc, Hrd. cbn.
  unfold VideoCall.setPendingSignals, modify. cbn.
  by rewrite insert_insert_eq.
Qed.

(** C3 fails on the code.  A candidate that arrives for the call of the
    component while the peer connection exists and has no remote description
    is queued, as the claim says.  But the queue is [pendingSignals], and
    the effect that runs after the render of every change of
    [pendingSignals] goes through the entry of the call, skips a candidate
    that still waits for the remote description, and empties the entry all
    the same.  So of any number of early candidates, each followed by that
    effect, none is pending when the answer arrives; and the listener of the
    answer reads the [pendingSignals] of the render in which it was
    registered, where none was pending either.  The answer sets the remote
    description and no candidate is ever handed to the engine. *)
Theorem early_candidates_are_never_applied
    server rtc hasSdp p registered dcs da sdp peer s :
  truthy (VideoCall.currentCallId p) = true ->
  Forall (fun dc => callId dc = VideoCall.currentCallId p
                    /\ is_Some (candidate dc)) dcs ->
  callId da = VideoCall.currentCallId p ->
  answer da = Some sdp ->
  hasSdp sdp = true ->
  VideoCall.peerConnectionRef s = Some peer ->
  VideoCall.remoteDescription peer = None ->
  default [] (VideoCall.pendingSignals s !! VideoCall.currentCallId p) = [] ->
  pendingCandidates registered (VideoCall.currentCallId p) = [] ->
  VideoCall.rejects rtc (VideoCall.engine s) (VideoCall.SetRemoteDescription sdp)
  = false ->
  let arrive dc :=
    VideoCall.handleIncomingIceCandidate rtc p registered dc ;;
    latest (VideoCall.pendingSignalsEffect server rtc p) in
  let early := exec (forEach dcs arrive) s in
  let answered :=
    exec (VideoCall.handleIncomingAnswer rtc hasSdp p registered da) early in
  Forall (fun dc =>
    let queued := exec (VideoCall.handleIncomingIceCandidate rtc p registered dc) s in
    queuedCandidates queued (VideoCall.currentCallId p)
    = option_list (candidate dc)
    /\ VideoCall.engine queued = VideoCall.engine s) dcs
  /\ outcome (forEach dcs arrive) s = Normal tt
  /\ VideoCall.engine early = VideoCall.engine s
  /\ queuedCandidates early (VideoCall.currentCallId p) = []
  /\ outcome (VideoCall.handleIncomingAnswer rtc hasSdp p registered da) early
     = Normal tt
  /\ VideoCall.engine answered
     = VideoCall.engine s ++ [VideoCall.SetRemoteDescription sdp]
  /\ VideoCall.remoteDescription <$> VideoCall.peerConnectionRef answered
     = Some (Some sdp).
Proof.
  intros Hid Hall Hda Hans Hsdp Hpc Hrd Hnone Hreg Hok arrive early answered.
  split.
  { apply Forall_forall. intros dc Hin.
    apply (proj1 (Forall_forall _ _) Hall) in Hin as [Hdc [c Hc]].
    assert (Hfor : VideoCall.forThisCall p registered dc = true).
    { unfold VideoCall.forThisCall. by rewrite bool_decide_eq_true_2. }
    assert (Hq : VideoCall.handleIncomingIceCandidate rtc p registered dc s
                 = VideoCall.queueSignal "ice-candidate" dc s).
    { unfold VideoCall.handleIncomingIceCandidate. rewrite Hfor.
      unfold bind, gets. by rewrite Hpc, Hc, Hrd. }
    unfold exec. rewrite Hq, queueSignal_run. cbn [snd].
    unfold queuedCandidates, pendingCandidates. rewrite Hdc, Hnone, Hc.
    destruct s; cbn. rewrite lookup_insert_eq. cbn.
    destruct (decide (true = true)); [|done]. cbn. by rewrite Hc. }
  assert (Hgen : forall s0,
    VideoCall.peerConnectionRef s0 = Some peer ->
    default [] (VideoCall.pendingSignals s0 !! VideoCall.currentCallId p) = [] ->
    exists s1,
      forEach dcs arrive s0 = (Normal tt, s1)
      /\ VideoCall.engine s1 = VideoCall.engine s0
      /\ VideoCall.peerConnectionRef s1 = Some peer
      /\ default [] (VideoCall.pendingSignals s1 !! VideoCall.currentCallId p)
         = []).
  { clear early answered Hok Hpc Hnone.
    induction Hall as [|dc dcs [Hdc [c Hc]] _ IH]; intros s0 Hpc Hnone.
    - by exists s0.
    - cbn [forEach]. subst arrive. cbn beta.
      rewrite (bind_normal _ _ _ _ _
                 (early_candidate_round server rtc p registered dc c peer s0
                    Hid Hdc Hc Hpc Hrd Hnone)).
      set (s1 := VideoCall.set_pendingSignals _ s0).
      destruct (IH s1) as (s2 & Hrun & Hen & Hpc2 & Hnone2).
      + by destruct s0.
      + subst s1. destruct s0; cbn. by rewrite lookup_insert_eq.
      + exists s2. split; [exact Hrun|]. split; [|done].
        rewrite Hen. by destruct s0. }
  destruct (Hgen s Hpc Hnone) as (s1 & Hrun & Hen & Hpc1 & Hnone1).
  assert (Hanswer : exists s2,
    VideoCall.handleIncomingAnswer rtc hasSdp p registered da s1
    = (Normal tt, s2)
    /\ VideoCall.engine s2
       = VideoCall.engine s ++ [VideoCall.SetRemoteDescription sdp]
    /\ VideoCall.remoteDescription <$> VideoCall.peerConnectionRef s2
       = Some (Some sdp)).
  { assert (Hfor : VideoCall.forThisCall p registered da = true).
    { unfold VideoCall.forThisCall. by rewrite bool_decide_eq_true_2. }
    unfold VideoCall.handleIncomingAnswer. rewrite Hfor.
    unfold bind at 1, gets at 1. rewrite Hpc1, Hans, Hrd, Hsdp.
    unfold bind at 1. cbn [ret]. unfold try_catch, bind.
    rewrite (setRemoteDescription_run rtc sdp s1 peer) by (by rewrite ?Hen).
    unfold VideoCall.processQueuedIceCandidates.
    unfold pendingCandidates in Hreg. rewrite Hda, Hreg. cbn.
    eexists. split; [reflexivity|]. rewrite <- Hen. by destruct s1. }
  destruct Hanswer as (s2 & Hrun2 & Hen2 & Hrd2).
  subst early answered. unfold outcome, exec. rewrite Hrun. cbn [fst snd].
  rewrite Hrun2. cbn [fst snd].
  split; [done|]. split; [exact Hen|].
  split; [|done].
  unfold queuedCandidates, pendingCandidates. by rewrite Hnone1.
Qed.

(** Three candidates for [c1] reach the caller while the other side rings,
    and then the answer. *)
Lemma early_candidates_witness :
  let dcs :=
    [Sample.signaling None None (Some "k1");
     Sample.signaling None None (Some "k2");
     Sample.signaling None None (Some "k3")] in
  let da := Sample.signaling None (Some "remote answer") None in
  let arrive dc :=
    VideoCall.handleIncomingIceCandidate Sample.rtc Sample.caller
      Sample.ringing dc ;;
    latest (VideoCall.pendingSignalsEffect Sample.accepting Sample.rtc
              Sample.caller) in
  truthy (VideoCall.currentCallId Sample.caller) = true
  /\ Forall (fun dc => callId dc = VideoCall.currentCallId Sample.caller
                       /\ is_Some (candidate dc)) dcs
  /\ callId da = VideoCall.currentCallId Sample.caller
  /\ answer da = Some "remote answer"
  /\ VideoCall.peerConnectionRef Sample.ringing = Some Sample.offering
  /\ VideoCall.remoteDescription Sample.offering = None
  /\ default [] (VideoCall.pendingSignals Sample.ringing
                   !! VideoCall.currentCallId Sample.caller) = []
  /\ pendingCandidates Sample.ringing (VideoCall.currentCallId Sample.caller)
     = []
  /\ VideoCall.rejects Sample.rtc (VideoCall.engine Sample.ringing)
       (VideoCall.SetRemoteDescription "remote answer") = false
  /\ VideoCall.engine
       (exec (VideoCall.handleIncomingAnswer Sample.rtc (fun _ => true)
                Sample.caller Sample.ringing da)
             (exec (forEach dcs arrive) Sample.ringing))
     = VideoCall.engine Sample.ringing
       ++ [VideoCall.SetRemoteDescription "remote answer"].
Proof.
  intros dcs da arrive.
  assert (Hall : Forall (fun dc =>
            callId dc = VideoCall.currentCallId Sample.caller
            /\ is_Some (candidate dc)) dcs)
    by (repeat constructor; by eexists).
  split; [reflexivity|]. split; [exact Hall|]. split; [reflexivity|].
  split; [reflexivity|]. split; [reflexivity|]. split; [reflexivity|].
  split; [reflexivity|]. split; [reflexivity|]. split; [reflexivity|].
  exact (proj1 (proj2 (proj2 (proj2 (proj2 (proj2
    (early_candidates_are_never_applied Sample.accepting Sample.rtc
       (fun _ => true) Sample.caller Sample.ringing dcs da "remote answer"
       Sample.offering Sample.ringing
       eq_refl Hall eq_refl eq_refl eq_refl eq_refl eq_refl eq_refl eq_refl
       eq_refl))))))).
Defined.

(** Before there is a peer connection the listener does not even queue: a
    candidate for the current call that arrives on the freshly mounted
    component is neither queued nor handed to the engine; the component is
    unchanged. *)
Lemma candidate_without_peer_connection_is_dropped :
  let s := VideoCall.mount Sample.callee in
  let d := Sample.signaling None None (Some "k1") in
  VideoCall.peerConnectionRef s = None
  /\ VideoCall.forThisCall Sample.callee s d = true
  /\ VideoCall.handleIncomingIceCandidate Sample.rtc Sample.callee s d s
     = (Normal tt, s)
  /\ VideoCall.pendingSignals s !! Some "c1" = None
  /\ VideoCall.engine s = [].
Proof. repeat split. Qed.

Lemma setLocalDescription_run rtc sdp s peer :
  VideoCall.peerConnectionRef s = Some peer ->
  VideoCall.rejects rtc (VideoCall.engine s) (VideoCall.SetLocalDescription sdp)
  = false ->
  VideoCall.setLocalDescription rtc sdp s
  = (Normal tt,
     VideoCall.set_peerConnectionRef
       (Some {| VideoCall.remoteDescription := VideoCall.remoteDescription peer;
                VideoCall.localDescription := Some sdp;
                VideoCall.connectionState := VideoCall.connectionState peer |})
       (VideoCall.set_engine
          (VideoCall.engine s ++ [VideoCall.SetLocalDescription sdp]) s)).
Proof.
  intros Hpc Hok.
  unfold VideoCall.setLocalDescription, VideoCall.withPeer, VideoCall.perform,
    bind, gets, modify.
  rewrite Hpc, Hok. destruct s; cbn in *. by subst.
Qed.

(** The answer path has the guard: with a remote description in place an
    answer for the call changes nothing. *)
Lemma answer_after_remote_description_is_ignored
    rtc hasSdp p seen d s peer previous :
  VideoCall.forThisCall p seen d = true ->
  VideoCall.peerConnectionRef s = Some peer ->
  VideoCall.remoteDescription peer = Some previous ->
  VideoCall.handleIncomingAnswer rtc hasSdp p seen d s = (Normal tt, s).
Proof.
  intros Hfor Hpc Hrd. unfold VideoCall.handleIncomingAnswer.
  rewrite Hfor. unfold bind, gets. rewrite Hpc.
  destruct (answer d); [|done]. by rewrite Hrd.
Qed.

(** C2 fails on the code for offers.  [handleIncomingOffer] has no guard:
    when an offer for the call arrives while a remote description is already
    in place, and the engine and the server accept what they are asked, the
    remote description is set again and the negotiation runs a second time
    (candidates, answer, local description, answer sent). *)
Theorem repeated_offer_is_negotiated_again
    server rtc p seen d sdp s peer previous result :
  (forall log op, VideoCall.rejects rtc log op = false) ->
  server (CallService.Signaling (callId d) "answer" (VideoCall.createdAnswer rtc))
  = CallService.Returns result ->
  VideoCall.forThisCall p seen d = true ->
  offer d = Some sdp ->
  VideoCall.peerConnectionRef s = Some peer ->
  VideoCall.remoteDescription peer = Some previous ->
  VideoCall.pendingSignals seen = VideoCall.pendingSignals s ->
  let again := exec (VideoCall.handleIncomingOfferEvent server rtc p seen d) s in
  VideoCall.engine again
  = VideoCall.engine s
    ++ VideoCall.SetRemoteDescription sdp
       :: map VideoCall.AddIceCandidate (queuedCandidates s (callId d))
    ++ [VideoCall.CreateAnswer;
        VideoCall.SetLocalDescription (VideoCall.createdAnswer rtc)]
  /\ VideoCall.remoteDescription <$> VideoCall.peerConnectionRef again
     = Some (Some sdp)
  /\ VideoCall.requests again
     = VideoCall.requests s
       ++ [CallService.Signaling (callId d) "answer" (VideoCall.createdAnswer rtc)].
Proof.
  intros Hrtc Hsrv Hfor Hoffer Hpc Hrd Hseen again.
  assert (Hrun : exists s',
    VideoCall.handleIncomingOfferEvent server rtc p seen d s = (Normal tt, s')
    /\ VideoCall.engine s'
       = VideoCall.engine s
         ++ VideoCall.SetRemoteDescription sdp
            :: map VideoCall.AddIceCandidate (queuedCandidates s (callId d))
         ++ [VideoCall.CreateAnswer;
             VideoCall.SetLocalDescription (VideoCall.createdAnswer rtc)]
    /\ VideoCall.remoteDescription <$> VideoCall.peerConnectionRef s'
       = Some (Some sdp)
    /\ VideoCall.requests s'
       = VideoCall.requests s
         ++ [CallService.Signaling (callId d) "answer"
               (VideoCall.createdAnswer rtc)]).
  { unfold VideoCall.handleIncomingOfferEvent. rewrite Hfor, Hoffer.
    unfold VideoCall.handleIncomingOffer, try_catch.
    unfold bind at 1. unfold bind at 1, gets at 1. rewrite Hpc. cbn [ret].
    unfold bind at 1.
    rewrite (setRemoteDescription_run rtc sdp s peer) by done.
    set (sr := VideoCall.set_peerConnectionRef _ _).
    assert (Hsr : VideoCall.pendingSignals seen = VideoCall.pendingSignals sr)
      by (by destruct s).
    unfold bind at 1.
    rewrite (processQueuedIceCandidates_run rtc seen (callId d) sr _ eq_refl Hsr).
    cbn zeta.
    unfold VideoCall.setLocalDescription, VideoCall.withPeer, VideoCall.perform,
      CallService.sendAnswer, CallService.post, bind, gets, modify.
    rewrite Hsrv. unfold queuedCandidates. subst sr.
    destruct (Nat.ltb 0 _); destruct s; cbn in *; subst;
      repeat (rewrite Hrtc; cbn); rewrite <- ?app_assoc;
      (eexists; split; [reflexivity|]); cbn; done. }
  destruct Hrun as (s' & Hrun & Hengine & Hremote & Hrequests).
  subst again. unfold exec. by rewrite Hrun.
Qed.

(** Two offers for [c1] reach the freshly mounted component one after the
    other: the engine is asked to set the remote description twice. *)
Lemma repeated_offer_witness :
  let first := Sample.signaling (Some "o1") None None in
  let second := Sample.signaling (Some "o2") None None in
  let peer := {| VideoCall.remoteDescription := Some "o1";
                 VideoCall.localDescription := Some "local answer";
                 VideoCall.connectionState := "new" |} in
  let s := exec (latest (fun seen =>
                   VideoCall.handleIncomingOfferEvent Sample.accepting Sample.rtc
                     Sample.callee seen first))
             (VideoCall.mount Sample.callee) in
  (forall log op, VideoCall.rejects Sample.rtc log op = false)
  /\ Sample.accepting
       (CallService.Signaling (callId second) "answer" "local answer")
     = CallService.Returns acknowledged
  /\ VideoCall.forThisCall Sample.callee s second = true
  /\ offer second = Some "o2"
  /\ VideoCall.peerConnectionRef s = Some peer
  /\ VideoCall.remoteDescription peer = Some "o1"
  /\ VideoCall.engine
       (exec (VideoCall.handleIncomingOfferEvent Sample.accepting Sample.rtc
                Sample.callee s second) s)
     = [VideoCall.NewPeerConnection; VideoCall.GetUserMedia;
        VideoCall.AddTrack 1; VideoCall.AddTrack 2;
        VideoCall.SetRemoteDescription "o1"; VideoCall.CreateAnswer;
        VideoCall.SetLocalDescription "local answer";
        VideoCall.SetRemoteDescription "o2"; VideoCall.CreateAnswer;
        VideoCall.SetLocalDescription "local answer"].
Proof.
  intros first second peer s.
  pose proof (repeated_offer_is_negotiated_again
                Sample.accepting Sample.rtc Sample.callee s second "o2" s peer
                "o1" acknowledged
                (fun _ _ => eq_refl) eq_refl eq_refl eq_refl eq_refl eq_refl
                eq_refl) as (Hengine & _ & _).
  split; [intros; reflexivity|]. split; [reflexivity|].
  split; [reflexivity|]. split; [reflexivity|].
  split; [reflexivity|]. split; [reflexivity|].
  rewrite Hengine. reflexivity.
Defined.

(** The effect that runs after a render with pending signals for the current
    call: a candidate that still waits for the remote description is skipped,
    and the entry of the call is emptied all the same. *)
Example pendingSignalsEffect_empties_the_entry :
  let queued :=
    exec (VideoCall.handleIncomingIceCandidate Sample.rtc Sample.caller
            Sample.ringing (Sample.signaling None None (Some "k1")))
      Sample.ringing in
  let after :=
    exec (VideoCall.pendingSignalsEffect Sample.accepting Sample.rtc
            Sample.caller queued) queued in
  queuedCandidates queued (Some "c1") = ["k1"]
  /\ VideoCall.engine after = []
  /\ VideoCall.pendingSignals after !! Some "c1" = Some [].
Proof. repeat split. Qed.

(** ** More on the transport channel *)

(** *** Registration *)

Lemma set_add_elem cb l : cb ∈ Socket.set_add cb l.
Proof.
  unfold Socket.set_add. destruct (decide (cb ∈ l)); [done|].
  apply elem_of_app. right. by apply list_elem_of_singleton.
Qed.

Lemma set_add_known cb l : cb ∈ l -> Socket.set_add cb l = l.
Proof. intros H. unfold Socket.set_add. by rewrite decide_True. Qed.

Lemma set_add_NoDup cb l : NoDup l -> NoDup (Socket.set_add cb l).
Proof.
  intros H. unfold Socket.set_add. destruct (decide (cb ∈ l)); [done|].
  apply NoDup_app. split; [done|]. split; [|apply NoDup_singleton].
  intros x Hx Hx'. apply list_elem_of_singleton in Hx'. by subst.
Qed.

Lemma set_add_nonempty cb l : Socket.set_add cb l <> [].
Proof.
  intros H. pose proof (set_add_elem cb l) as Hin. rewrite H in Hin.
  by apply not_elem_of_nil in Hin.
Qed.

(** Registering a listener that is registered already, with nothing stored
    under the event, changes nothing. *)
Lemma on_known throws event cb s ls :
  Socket.eventListeners s !! event = Some ls ->
  cb ∈ ls ->
  Socket.storedWebRTCEvents s !! event = None ->
  Socket.on throws event cb s = (Normal tt, s).
Proof.
  intros Hl Hin Hst. rewrite on_run. cbn zeta.
  rewrite Hl. cbn [from_option id]. rewrite (set_add_known cb ls Hin).
  rewrite (insert_id _ _ _ Hl).
  assert (Hs : Socket.set_eventListeners (Socket.eventListeners s) s = s)
    by (by destruct s).
  rewrite Hs. destruct (includes event "webrtc"); [|done].
  rewrite processStoredWebRTCEvents_run. by rewrite Hst.
Qed.

(** X1.  [on] has the semantics of a set: registering the same
    callback for the same event twice in a row is the same as registering it
    once, also for a WebRTC event with stored events, which the first
    registration replays and removes. *)
Theorem on_twice_is_on_once throws event cb s :
  outcome (Socket.on throws event cb ;; Socket.on throws event cb) s = Normal tt
  /\ exec (Socket.on throws event cb ;; Socket.on throws event cb) s
     = exec (Socket.on throws event cb) s.
Proof.
  unfold outcome, exec, bind.
  assert (Hfirst : exists s1 ls,
    Socket.on throws event cb s = (Normal tt, s1)
    /\ Socket.eventListeners s1 !! event = Some ls /\ cb ∈ ls
    /\ (includes event "webrtc" = true ->
        Socket.storedWebRTCEvents s1 !! event = None)
    /\ Socket.storedWebRTCEvents s1 !! event
       = (if includes event "webrtc" then None
          else Socket.storedWebRTCEvents s !! event)).
  { rewrite on_run. cbn zeta.
    destruct (includes event "webrtc") eqn:Hinc.
    - rewrite processStoredWebRTCEvents_run.
      destruct s as [sock c cing ra el q st hb w inv]; cbn.
      destruct (st !! event) as [ds|] eqn:Hst; cbn.
      + eexists _, _. split; [reflexivity|]. cbn.
        rewrite lookup_insert_eq, lookup_delete_eq.
        repeat split; auto using set_add_elem.
      + eexists _, _. split; [reflexivity|]. cbn.
        rewrite lookup_insert_eq. repeat split; auto using set_add_elem.
    - destruct s as [sock c cing ra el q st hb w inv]; cbn.
      eexists _, _. split; [reflexivity|]. cbn.
      rewrite lookup_insert_eq. repeat split; auto using set_add_elem.
      discriminate. }
  destruct Hfirst as (s1 & ls & Hrun & Hl & Hin & Hst & Hst').
  rewrite Hrun.
  destruct (includes event "webrtc") eqn:Hinc.
  - rewrite (on_known throws event cb s1 ls Hl Hin (Hst eq_refl)). by cbn.
  - rewrite on_run. cbn zeta. rewrite Hinc, Hl. cbn [from_option id].
    rewrite (set_add_known cb ls Hin), (insert_id _ _ _ Hl).
    by destruct s1.
Qed.

Lemma off_run event cb s :
  Socket.off event (Some cb) s
  = (Normal tt,
     match Socket.eventListeners s !! event with
     | Some ls =>
         Socket.set_eventListeners
           (if Nat.eqb (length (Socket.set_delete cb ls)) 0
            then delete event (Socket.eventListeners s)
            else <[event := Socket.set_delete cb ls]> (Socket.eventListeners s)) s
     | None => s
     end).
Proof.
  unfold Socket.off, bind, gets, modify, when.
  destruct (Socket.eventListeners s !! event) as [ls|]; [|done].
  destruct (Nat.eqb (length (Socket.set_delete cb ls)) 0); cbn; [|done].
  by rewrite delete_insert_eq.
Qed.

Lemma set_delete_spec cb x ls : x ∈ Socket.set_delete cb ls <-> x ∈ ls /\ x <> cb.
Proof. unfold Socket.set_delete. rewrite list_elem_of_filter. tauto. Qed.

(** X2.  After [off(event, callback)] the callback is no longer among the
    listeners of the event, the remaining listeners of the event are the old
    ones in their old order, the listeners of every other event are as
    before, and nothing but the listener map has changed. *)
Theorem off_silences_the_callback event cb s :
  let s' := exec (Socket.off event (Some cb)) s in
  outcome (Socket.off event (Some cb)) s = Normal tt
  /\ default [] (Socket.eventListeners s' !! event)
     = Socket.set_delete cb (default [] (Socket.eventListeners s !! event))
  /\ ~ (cb ∈ default [] (Socket.eventListeners s' !! event))
  /\ delete event (Socket.eventListeners s') = delete event (Socket.eventListeners s)
  /\ s' = Socket.set_eventListeners (Socket.eventListeners s') s.
Proof.
  intros s'. subst s'. unfold outcome, exec. rewrite off_run. cbn [fst snd].
  destruct (Socket.eventListeners s !! event) as [ls|] eqn:Hl.
  - destruct (Nat.eqb (length (Socket.set_delete cb ls)) 0) eqn:E;
      cbn -[Socket.set_delete].
    + apply Nat.eqb_eq, length_zero_iff_nil in E.
      rewrite lookup_delete_eq, E. cbn.
      split; [done|]. split; [done|]. split; [apply not_elem_of_nil|].
      split; [apply delete_delete_eq|by destruct s].
    + rewrite lookup_insert_eq. cbn -[Socket.set_delete].
      split; [done|]. split; [done|].
      split; [intros Hin; apply set_delete_spec in Hin; tauto|].
      split; [apply delete_insert_eq|by destruct s].
  - rewrite Hl. cbn.
    split; [done|]. split; [done|]. split; [apply not_elem_of_nil|].
    split; [done|by destruct s].
Qed.

Lemma set_delete_NoDup cb l : NoDup l -> NoDup (Socket.set_delete cb l).
Proof. intros H. unfold Socket.set_delete. by apply NoDup_filter. Qed.

Lemma tidy_insert event ls s :
  tidy s -> ls <> [] -> NoDup ls ->
  tidy (Socket.set_eventListeners (<[event := ls]> (Socket.eventListeners s)) s).
Proof.
  intros Ht Hne Hnd e l. destruct s; cbn in *. intros Hl.
  destruct (decide (event = e)) as [->|Hneq].
  - rewrite lookup_insert_eq in Hl. by simplify_eq.
  - rewrite lookup_insert_ne in Hl by done. by apply (Ht e).
Qed.

Lemma tidy_delete event s :
  tidy s ->
  tidy (Socket.set_eventListeners (delete event (Socket.eventListeners s)) s).
Proof.
  intros Ht e l. destruct s; cbn in *. intros Hl.
  destruct (decide (event = e)) as [->|Hneq].
  - by rewrite lookup_delete_eq in Hl.
  - rewrite lookup_delete_ne in Hl by done. by apply (Ht e).
Qed.

Lemma tidy_ext s s' :
  Socket.eventListeners s' = Socket.eventListeners s -> tidy s -> tidy s'.
Proof. intros H Ht e l. rewrite H. apply Ht. Qed.

(** X3.  The service keeps its listener map tidy: if every listener set
    in the map is non-empty and free of duplicates, it is so again after
    [on], after [off] with or without a callback, and after [emitEvent]; on
    such a service an event has no listeners exactly when it has no entry. *)
Theorem listener_sets_stay_tidy throws event cb gone d s :
  tidy s ->
  tidy (exec (Socket.on throws event cb) s)
  /\ tidy (exec (Socket.off event gone) s)
  /\ tidy (exec (Socket.emitEvent throws event d) s)
  /\ (Socket.noListeners event s = true
      <-> Socket.eventListeners s !! event = None).
Proof.
  intros Ht. split; [|split; [|split]].
  - unfold exec. rewrite on_run. cbn zeta.
    set (ls := Socket.set_add cb _).
    assert (Hreg : tidy (Socket.set_eventListeners
                           (<[event := ls]> (Socket.eventListeners s)) s)).
    { apply tidy_insert; [done|apply set_add_nonempty|].
      apply set_add_NoDup.
      destruct (Socket.eventListeners s !! event) as [l|] eqn:Hl; cbn.
      - by apply (Ht event).
      - apply NoDup_nil_2. }
    destruct (includes event "webrtc"); [|done].
    rewrite processStoredWebRTCEvents_run. cbn [snd].
    eapply tidy_ext; [|exact Hreg].
    by destruct (Socket.storedWebRTCEvents _ !! event); destruct s.
  - unfold exec. destruct gone as [c|].
    + rewrite off_run. cbn [snd].
      destruct (Socket.eventListeners s !! event) as [l|] eqn:Hl; [|done].
      destruct (Nat.eqb (length (Socket.set_delete c l)) 0) eqn:E.
      * by apply tidy_delete.
      * apply tidy_insert; [done| |].
        -- intros Hnil. rewrite Hnil in E. discriminate.
        -- apply set_delete_NoDup. by apply (Ht event).
    + unfold Socket.off, bind, gets, modify.
      destruct (Socket.eventListeners s !! event) as [l|]; [|done].
      cbn [snd]. by apply tidy_delete.
  - unfold exec. rewrite emitEvent_run. cbn [snd].
    eapply tidy_ext; [|exact Ht]. by destruct s.
  - unfold Socket.noListeners.
    destruct (Socket.eventListeners s !! event) as [l|] eqn:Hl; [|done].
    split; [|done]. intros E. apply Nat.eqb_eq, length_zero_iff_nil in E.
    by destruct (Ht event l Hl).
Qed.

Lemma tidy_constructor : tidy Socket.constructor.
Proof. intros e l H. cbn in H. by rewrite lookup_empty in H. Qed.

(** The fresh service is tidy, and so it is with its first listener. *)
Lemma listener_sets_witness :
  tidy Socket.constructor
  /\ tidy (exec (Socket.on Sample.quiet "call_incoming" 1) Socket.constructor).
Proof.
  split; [exact tidy_constructor|].
  exact (proj1 (listener_sets_stay_tidy Sample.quiet "call_incoming" 1 None
                  stamped Socket.constructor tidy_constructor)).
Defined.

(** *** Sending *)

Lemma emit_all_connected msgs s k :
  Socket.isConnected s = true ->
  Socket.socket s = Some k ->
  forEach msgs (fun m => Socket.emit m.1 m.2) s
  = (Normal tt, Socket.set_wire (Socket.wire s ++ msgs) s).
Proof.
  revert s. induction msgs as [|[event d] msgs IH]; intros s Hc Hs.
  - cbn. rewrite app_nil_r. by destruct s.
  - cbn [forEach]. unfold bind at 1.
    assert (He : Socket.emit event d s
                 = (Normal tt, Socket.set_wire (Socket.wire s ++ [(event, d)]) s)).
    { unfold Socket.emit, bind, gets, modify. destruct s; cbn in *. by subst. }
    cbn [fst snd]. rewrite He. rewrite IH by (by destruct s).
    destruct s; cbn. by rewrite <- app_assoc.
Qed.

(** X4.  A drop of the connection between sends neither loses nor
    reorders messages: on a connected service with an empty queue, the
    messages sent before the socket disconnects go out at once, those sent
    after it wait in the queue, and when the socket connects again the wire
    has received all of them, once each, in the order of sending. *)
Theorem sends_across_a_disconnect_keep_their_order
    throws before after reason fuel s k :
  Socket.isConnected s = true ->
  Socket.socket s = Some k ->
  Socket.messageQueue s = [] ->
  length after <= fuel ->
  let send msgs := forEach msgs (fun m => Socket.emit m.1 m.2) in
  let run :=
    send before ;; Socket.on_disconnect throws reason ;;
    send after ;; Socket.on_connect throws fuel in
  outcome run s = Normal tt
  /\ Socket.wire (exec run s) = Socket.wire s ++ before ++ after
  /\ Socket.messageQueue (exec run s) = []
  /\ Socket.wire (exec (send before ;; Socket.on_disconnect throws reason ;;
                        send after) s)
     = Socket.wire s ++ before.
Proof.
  intros Hc Hs Hq Hfuel send run.
  pose proof (emit_all_connected before s k Hc Hs) as H1.
  set (s1 := Socket.set_wire (Socket.wire s ++ before) s) in H1.
  pose proof (on_disconnect_run throws reason s1) as H2.
  set (s2 := Socket.set_invoked _ _) in H2.
  assert (H3 : send after s2
               = (Normal tt,
                  Socket.set_messageQueue (Socket.messageQueue s2 ++ after) s2))
    by (apply emit_all_disconnected; by destruct s).
  set (s3 := Socket.set_messageQueue _ s2) in H3.
  assert (H4 := on_connect_run throws fuel s3 k).
  assert (Hpart : (send before ;; Socket.on_disconnect throws reason ;;
                   send after) s = (Normal tt, s3)).
  { rewrite (bind_normal _ _ _ _ _ H1), (bind_normal _ _ _ _ _ H2). exact H3. }
  assert (Hrun : run s = Socket.on_connect throws fuel s3).
  { subst run.
    rewrite (bind_normal _ _ _ _ _ H1), (bind_normal _ _ _ _ _ H2).
    by rewrite (bind_normal _ _ _ _ _ H3). }
  unfold outcome, exec. rewrite Hrun, Hpart, H4;
    [|by destruct s|destruct s; cbn in *; subst; cbn; lia].
  destruct s; cbn in *; subst. cbn. by rewrite <- !app_assoc.
Qed.

(** A connected service sends two messages, loses the connection, sends a
    third and connects again. *)
Lemma sends_across_a_disconnect_witness :
  let s :=
    {| Socket.socket := Some 1; Socket.isConnected := true;
       Socket.isConnecting := false; Socket.reconnectAttempts := 0;
       Socket.eventListeners := ∅; Socket.messageQueue := [];
       Socket.storedWebRTCEvents := ∅; Socket.heartbeatInterval := Some 30000%N;
       Socket.wire := []; Socket.invoked := [] |} in
  let a := ("typing_start", forChat "chat-1") in
  let b := ("typing_stop", forChat "chat-1") in
  let c := ("typing_start", forChat "chat-2") in
  let send msgs := forEach msgs (fun m => Socket.emit m.1 m.2) in
  Socket.isConnected s = true
  /\ Socket.socket s = Some 1
  /\ Socket.messageQueue s = []
  /\ length [c] <= 1
  /\ Socket.wire
       (exec (send [a; b] ;;
              Socket.on_disconnect Sample.quiet "transport close" ;;
              send [c] ;; Socket.on_connect Sample.quiet 1) s)
     = [] ++ [a; b] ++ [c].
Proof.
  intros s a b c send.
  split; [reflexivity|]. split; [reflexivity|]. split; [reflexivity|].
  split; [cbn; lia|].
  exact (proj1 (proj2 (sends_across_a_disconnect_keep_their_order
                         Sample.quiet [a; b] [c] "transport close" 1 s 1
                         eq_refl eq_refl eq_refl (le_n 1)))).
Defined.

(** X5.  [processMessageQueue] relies on the connected flag: called
    while the flag is off with a message in the queue, every round takes the
    head of the queue and [emit] puts it back at the end, so the loop never
    ends, whatever the fuel; nothing reaches the wire and the queue keeps its
    length. *)
Theorem processMessageQueue_disconnected_never_ends fuel s :
  Socket.isConnected s = false ->
  Socket.messageQueue s <> [] ->
  outcome (Socket.processMessageQueue fuel) s = Diverges
  /\ Socket.wire (exec (Socket.processMessageQueue fuel) s) = Socket.wire s
  /\ length (Socket.messageQueue (exec (Socket.processMessageQueue fuel) s))
     = length (Socket.messageQueue s).
Proof.
  destruct s as [sock c cing ra el q st hb w inv]. cbn. intros -> Hq.
  unfold outcome, exec.
  revert q Hq. induction fuel as [|fuel IH]; intros q Hq.
  - destruct q as [|[event d] q]; [done|]. by cbn.
  - destruct q as [|[event d] q]; [done|]. cbn.
    specialize (IH (q ++ [(event, d)])).
    destruct IH as (Ho & Hw & Hl); [by destruct q|].
    cbn in Ho, Hw, Hl. rewrite Ho, Hw, Hl.
    repeat split. rewrite length_app. cbn. lia.
Qed.

Lemma processMessageQueue_disconnected_witness :
  let s := exec (Socket.emit "typing_start" (forChat "chat-1")) Sample.connecting in
  Socket.isConnected s = false
  /\ Socket.messageQueue s <> []
  /\ outcome (Socket.processMessageQueue 1000) s = Diverges.
Proof.
  intros s.
  assert (Hq : Socket.messageQueue s <> []) by discriminate.
  split; [reflexivity|]. split; [exact Hq|].
  exact (proj1 (processMessageQueue_disconnected_never_ends 1000 s eq_refl Hq)).
Defined.

(** *** Buffering *)






Lemma receive_buffering throws wireName event d s :
  (wireName, event) ∈ [("webrtc:offer", "webrtc_offer");
                        ("webrtc:ice-candidate", "webrtc_ice_candidate")] ->
  Socket.receive throws wireName d s
  = (Normal tt,
     let s1 :=
       if Socket.noListeners event s then
         Socket.set_storedWebRTCEvents
           (<[event := default [] (Socket.storedWebRTCEvents s !! event) ++ [d]]>
              (Socket.storedWebRTCEvents s)) s
       else s in
     Socket.set_invoked (Socket.invoked s ++ deliveries event d s) s1).
Proof.
  intros Hin.
  assert (Hgen :
    (do none <- gets (Socket.noListeners event) ;
     when none (Socket.storeWebRTCEvent event d) ;;
     Socket.emitEvent throws event d) s
    = (Normal tt,
       let s1 :=
         if Socket.noListeners event s then
           Socket.set_storedWebRTCEvents
             (<[event := default [] (Socket.storedWebRTCEvents s !! event) ++ [d]]>
                (Socket.storedWebRTCEvents s)) s
         else s in
       Socket.set_invoked (Socket.invoked s ++ deliveries event d s) s1)).
  { unfold bind at 1, gets at 1.
    destruct (Socket.noListeners event s); cbn [when].
    - unfold bind. rewrite storeWebRTCEvent_run, emitEvent_run. by destruct s.
    - unfold bind. cbn [ret]. by rewrite emitEvent_run. }
  apply elem_of_cons in Hin as [Heq|Hin];
    [|apply list_elem_of_singleton in Hin as Heq]; by simplify_eq.
Qed.

Lemma noListeners_ext event s s' :
  Socket.eventListeners s' !! event = Socket.eventListeners s !! event ->
  Socket.noListeners event s' = Socket.noListeners event s.
Proof. intros H. unfold Socket.noListeners. by rewrite H. Qed.

(** X7.  The store and the listeners never overlap: if events are
    stored only under WebRTC names that have no listener, this is so again
    after [on], after [off], after [emitEvent] and after the arrival of an
    offer or an ICE candidate under the colon names.  A replay therefore
    never reaches a listener that was registered when the event arrived. *)
Theorem stored_events_have_no_listener
    throws wireName stored event cb gone d s :
  (wireName, stored) ∈ [("webrtc:offer", "webrtc_offer");
                         ("webrtc:ice-candidate", "webrtc_ice_candidate")] ->
  unheard s ->
  unheard (exec (Socket.on throws event cb) s)
  /\ unheard (exec (Socket.off event gone) s)
  /\ unheard (exec (Socket.emitEvent throws event d) s)
  /\ unheard (exec (Socket.receive throws wireName d) s).
Proof.
  intros Hin Hu. split; [|split; [|split]].
  - unfold exec. rewrite on_run. cbn zeta.
    destruct (includes event "webrtc") eqn:Hinc.
    + rewrite processStoredWebRTCEvents_run. cbn [snd].
      intros e ds Hst.
      assert (Hne : e <> event /\ Socket.storedWebRTCEvents s !! e = Some ds).
      { destruct s as [sock c cing ra el q st hb w inv]; cbn in *.
        destruct (st !! event) eqn:E; cbn in *.
        - destruct (decide (e = event)) as [->|Hne];
            [by rewrite lookup_delete_eq in Hst|].
          by rewrite lookup_delete_ne in Hst.
        - split; [|done]. intros ->. congruence. }
      destruct Hne as [Hne Hst0]. destruct (Hu e ds Hst0) as [Hno Hw].
      split; [|done]. rewrite <- Hno. apply noListeners_ext.
      destruct s as [sock c cing ra el q st hb w inv]; cbn in *.
      destruct (st !! event); cbn; by rewrite lookup_insert_ne.
    + cbn [snd]. intros e ds Hst.
      assert (Hst0 : Socket.storedWebRTCEvents s !! e = Some ds) by (by destruct s).
      destruct (Hu e ds Hst0) as [Hno Hw]. split; [|done].
      assert (Hne : e <> event) by (intros ->; congruence).
      rewrite <- Hno. apply noListeners_ext. destruct s; cbn.
      by rewrite lookup_insert_ne.
  - intros e ds Hst.
    assert (Hsame : Socket.storedWebRTCEvents (exec (Socket.off event gone) s)
                    = Socket.storedWebRTCEvents s).
    { unfold exec. destruct gone as [c|].
      - rewrite off_run. cbn [snd].
        destruct (Socket.eventListeners s !! event); [|done].
        by destruct (Nat.eqb _ 0); destruct s.
      - unfold Socket.off, bind, gets, modify.
        destruct (Socket.eventListeners s !! event); by destruct s. }
    rewrite Hsame in Hst. destruct (Hu e ds Hst) as [Hno Hw]. split; [|done].
    destruct (decide (e = event)) as [->|Hne].
    + unfold Socket.noListeners in *. unfold exec. destruct gone as [c|].
      * rewrite off_run. cbn [snd].
        destruct (Socket.eventListeners s !! event) as [ls|] eqn:Hl.
        -- apply Nat.eqb_eq, length_zero_iff_nil in Hno. subst ls. cbn.
           destruct s; cbn. by rewrite lookup_delete_eq.
        -- by rewrite Hl.
      * unfold Socket.off, bind, gets, modify.
        destruct (Socket.eventListeners s !! event) as [ls|] eqn:Hl.
        -- destruct s; cbn. by rewrite lookup_delete_eq.
        -- cbn. by rewrite Hl.
    + rewrite <- Hno. apply noListeners_ext. unfold exec.
      destruct gone as [c|].
      * rewrite off_run. cbn [snd].
        destruct (Socket.eventListeners s !! event) as [ls|] eqn:Hl; [|done].
        destruct (Nat.eqb _ 0); destruct s; cbn;
          by rewrite ?lookup_delete_ne, ?lookup_insert_ne.
      * unfold Socket.off, bind, gets, modify.
        destruct (Socket.eventListeners s !! event) as [ls|] eqn:Hl; [|done].
        destruct s; cbn. by rewrite lookup_delete_ne.
  - unfold exec. rewrite emitEvent_run. cbn [snd].
    intros e ds Hst.
    assert (Hst0 : Socket.storedWebRTCEvents s !! e = Some ds) by (by destruct s).
    destruct (Hu e ds Hst0) as [Hno Hw]. split; [|done].
    rewrite <- Hno. apply noListeners_ext. by destruct s.
  - unfold exec. rewrite (receive_buffering throws wireName stored d s Hin).
    cbn [snd]. cbn zeta.
    assert (Hinc : includes stored "webrtc" = true).
    { apply elem_of_cons in Hin as [Heq|Hin];
        [|apply list_elem_of_singleton in Hin as Heq]; by simplify_eq. }
    intros e ds Hst.
    destruct (Socket.noListeners stored s) eqn:Hno0.
    + destruct (decide (e = stored)) as [->|Hne].
      * split; [|done]. rewrite <- Hno0. apply noListeners_ext. by destruct s.
      * assert (Hst0 : Socket.storedWebRTCEvents s !! e = Some ds).
        { destruct s; cbn in *. by rewrite lookup_insert_ne in Hst. }
        destruct (Hu e ds Hst0) as [Hno Hw]. split; [|done].
        rewrite <- Hno. apply noListeners_ext. by destruct s.
    + assert (Hst0 : Socket.storedWebRTCEvents s !! e = Some ds) by (by destruct s).
      destruct (Hu e ds Hst0) as [Hno Hw]. split; [|done].
      rewrite <- Hno. apply noListeners_ext. by destruct s.
Qed.

Lemma unheard_constructor : unheard Socket.constructor.
Proof. intros e ds H. cbn in H. by rewrite lookup_empty in H. Qed.

Lemma stored_events_witness :
  ("webrtc:offer", "webrtc_offer")
    ∈ [("webrtc:offer", "webrtc_offer");
        ("webrtc:ice-candidate", "webrtc_ice_candidate")]
  /\ unheard Socket.constructor
  /\ unheard (exec (Socket.receive Sample.quiet "webrtc:offer"
                      (Sample.signaling (Some "o1") None None))
                Socket.constructor).
Proof.
  assert (Hin : ("webrtc:offer", "webrtc_offer")
    ∈ [("webrtc:offer", "webrtc_offer");
        ("webrtc:ice-candidate", "webrtc_ice_candidate")])
    by apply list_elem_of_here.
  split; [exact Hin|]. split; [exact unheard_constructor|].
  exact (proj2 (proj2 (proj2
    (stored_events_have_no_listener Sample.quiet "webrtc:offer" "webrtc_offer"
       "webrtc_offer" 7 None (Sample.signaling (Some "o1") None None)
       Socket.constructor Hin unheard_constructor)))).
Defined.

(** ** The life cycle of the transport channel *)

Lemma lift_run {A} (m : M Socket.service A) i r c :
  m (Lifecycle.core i) = (r, c) ->
  Lifecycle.lift m i
  = (r, {| Lifecycle.core := c; Lifecycle.authToken := Lifecycle.authToken i;
           Lifecycle.callHandlers := Lifecycle.callHandlers i |}).
Proof. intros H. unfold Lifecycle.lift. by rewrite H. Qed.

Lemma socket_disconnect_run throws fires s :
  Lifecycle.socket_disconnect throws fires s
  = (Normal tt,
     if fires then
       Socket.set_invoked
         (Socket.invoked s
          ++ deliveries "disconnection" (becauseOf "io client disconnect") s)
         (Socket.set_isConnecting false (Socket.set_isConnected false s))
     else s).
Proof.
  unfold Lifecycle.socket_disconnect, when. destruct fires; [|done].
  apply on_disconnect_run.
Qed.

(** The state [disconnect()] leaves when there was a socket *)
Lemma disconnect_run throws fires i k :
  Socket.socket (Lifecycle.core i) = Some k ->
  Lifecycle.disconnect throws fires i
  = (Normal tt,
     {| Lifecycle.core :=
          {| Socket.socket := None; Socket.isConnected := false;
             Socket.isConnecting := false; Socket.reconnectAttempts := 0;
             Socket.eventListeners := ∅; Socket.messageQueue := [];
             Socket.storedWebRTCEvents :=
               Socket.storedWebRTCEvents (Lifecycle.core i);
             Socket.heartbeatInterval := None;
             Socket.wire := Socket.wire (Lifecycle.core i);
             Socket.invoked :=
               Socket.invoked (Lifecycle.core i)
               ++ (if fires then
                     deliveries "disconnection"
                       (becauseOf "io client disconnect") (Lifecycle.core i)
                   else []) |};
        Lifecycle.authToken := None; Lifecycle.callHandlers := ∅ |}).
Proof.
  intros Hs. unfold Lifecycle.disconnect.
  unfold bind at 1, gets at 1. rewrite Hs.
  destruct i as [[sock c cing ra el q st hb w inv] tok ch]. cbn in Hs. subst.
  unfold bind, Lifecycle.lift, Lifecycle.stopHeartbeat, modify. cbn.
  rewrite socket_disconnect_run. destruct fires; cbn; [done|].
  by rewrite app_nil_r.
Qed.

(** X8.  [disconnect()] is safe to call again: whatever the
    library does on each call, a second [disconnect()] changes nothing.
    After the first one on a service with a socket there is no socket, no
    listener, no queued message, no token and no heartbeat, and a message
    sent then is queued, not transmitted. *)
Theorem disconnect_twice_is_disconnect_once throws fires fires' event d i :
  let gone := exec (Lifecycle.disconnect throws fires) i in
  outcome (Lifecycle.disconnect throws fires) i = Normal tt
  /\ Lifecycle.disconnect throws fires' gone = (Normal tt, gone)
  /\ Socket.socket (Lifecycle.core gone) = None
  /\ match Socket.socket (Lifecycle.core i) with
     | Some _ =>
        Socket.eventListeners (Lifecycle.core gone) = ∅
        /\ Socket.messageQueue (Lifecycle.core gone) = []
        /\ Socket.isConnected (Lifecycle.core gone) = false
        /\ Socket.heartbeatInterval (Lifecycle.core gone) = None
        /\ Lifecycle.authToken gone = None
        /\ Lifecycle.callHandlers gone = ∅
        /\ Socket.emit event d (Lifecycle.core gone)
           = (Normal tt,
              Socket.set_messageQueue [(event, d)] (Lifecycle.core gone))
     | None => gone = i
     end.
Proof.
  intros gone. subst gone. unfold outcome, exec.
  destruct (Socket.socket (Lifecycle.core i)) as [k|] eqn:Hs.
  - rewrite (disconnect_run throws fires i k Hs). cbn [fst snd].
    repeat split.
  - assert (Hno : forall f, Lifecycle.disconnect throws f i = (Normal tt, i)).
    { intros f. unfold Lifecycle.disconnect, bind, gets. by rewrite Hs. }
    rewrite (Hno fires). cbn [fst snd]. by rewrite (Hno fires'), Hs.
Qed.

Lemma cleanup_facts throws fires i :
  exists c,
    Lifecycle.cleanup throws fires i = (Normal tt, c)
    /\ Socket.storedWebRTCEvents (Lifecycle.core c)
       = Socket.storedWebRTCEvents (Lifecycle.core i)
    /\ Socket.eventListeners (Lifecycle.core c) = ∅
    /\ Socket.messageQueue (Lifecycle.core c) = []
    /\ Socket.heartbeatInterval (Lifecycle.core c) = None
    /\ Lifecycle.callHandlers c = ∅
    /\ Socket.wire (Lifecycle.core c) = Socket.wire (Lifecycle.core i).
Proof.
  unfold Lifecycle.cleanup.
  destruct i as [[[k|] c cing ra el q st hb w inv] tok ch].
  - eexists. split.
    + unfold bind at 1. erewrite lift_run by reflexivity.
      unfold bind at 1. erewrite disconnect_run by reflexivity.
      unfold bind, Lifecycle.lift, modify. cbn. reflexivity.
    + done.
  - eexists. split; [cbn; reflexivity|done].
Qed.

(** X9.  [cleanup()] forgets every listener, queued message and call
    handler but not the buffered signalling events: whatever was stored under
    a WebRTC event name before [cleanup()] is delivered to the first listener
    registered for that name afterwards, in the order of arrival. *)
Theorem signals_buffered_before_cleanup_reach_the_next_listener
    throws fires event cb i :
  includes event "webrtc" = true ->
  let cleaned := exec (Lifecycle.cleanup throws fires) i in
  let stale := default [] (Socket.storedWebRTCEvents (Lifecycle.core i) !! event) in
  outcome (Lifecycle.cleanup throws fires) i = Normal tt
  /\ Socket.eventListeners (Lifecycle.core cleaned) = ∅
  /\ Socket.messageQueue (Lifecycle.core cleaned) = []
  /\ Lifecycle.callHandlers cleaned = ∅
  /\ Socket.storedWebRTCEvents (Lifecycle.core cleaned)
     = Socket.storedWebRTCEvents (Lifecycle.core i)
  /\ outcome (Socket.on throws event cb) (Lifecycle.core cleaned) = Normal tt
  /\ Socket.invoked (exec (Socket.on throws event cb) (Lifecycle.core cleaned))
     = Socket.invoked (Lifecycle.core cleaned)
       ++ map (fun d => (cb, d)) stale.
Proof.
  intros Hinc cleaned stale. subst cleaned stale. unfold outcome, exec.
  destruct (cleanup_facts throws fires i)
    as (c & -> & Hst & Hl & Hq & _ & Hch & _).
  cbn [fst snd]. rewrite Hst. do 5 (split; [done|]).
  rewrite on_run, Hinc. cbn zeta. rewrite processStoredWebRTCEvents_run.
  rewrite <- Hst. destruct c as [[sock cn cing ra el q st hb w inv] tok ch].
  cbn in *. subst el.
  destruct (st !! event) as [ds|]; cbn; [|by rewrite app_nil_r].
  split; [done|]. f_equal. unfold deliveries. cbn.
  rewrite lookup_insert_eq. cbn.
  induction ds as [|d ds IH]; cbn; [done|]. by rewrite IH.
Qed.

(** An offer reaches a connected service whose call component is not
    mounted; the application then calls [cleanup()] and a later component
    registers its listener. *)
Lemma signals_buffered_before_cleanup_witness :
  let i :=
    exec (Lifecycle.connect Sample.quiet false "token" 1 ;;
          Lifecycle.lift (Socket.on_connect Sample.quiet 0) ;;
          Lifecycle.lift
            (Socket.receive Sample.quiet "webrtc:offer"
               (Sample.signaling (Some "o1") None None)))
         Lifecycle.constructor in
  includes "webrtc_offer" "webrtc" = true
  /\ Socket.invoked
       (exec (Socket.on Sample.quiet "webrtc_offer" 7)
             (Lifecycle.core (exec (Lifecycle.cleanup Sample.quiet true) i)))
     = Socket.invoked
         (Lifecycle.core (exec (Lifecycle.cleanup Sample.quiet true) i))
       ++ map (fun d => (7, d))
            (default [] (Socket.storedWebRTCEvents (Lifecycle.core i)
                           !! "webrtc_offer")).
Proof.
  intros i. split; [reflexivity|].
  exact (proj2 (proj2 (proj2 (proj2 (proj2 (proj2
    (signals_buffered_before_cleanup_reach_the_next_listener
       Sample.quiet true "webrtc_offer" 7 i eq_refl))))))).
Defined.




(** X11.  The heartbeat is silent while the connection is down.  A
    firing of its timer on a disconnected service changes nothing: no ping
    is sent and none is queued for later.  The timer survives the loss of
    the connection, since the handler of [disconnect] does not stop it,
    and its firings after the loss change nothing; on a connected service
    with a socket a firing sends one ping. *)
Theorem heartbeat_is_silent_while_disconnected throws reason s :
  let down := exec (Socket.on_disconnect throws reason) s in
  Lifecycle.heartbeat s
  = (Normal tt,
     if Socket.isConnected s then
       match Socket.socket s with
       | Some _ => Socket.set_wire (Socket.wire s ++ [("ping", emptyObj)]) s
       | None => s
       end
     else s)
  /\ Socket.heartbeatInterval down = Socket.heartbeatInterval s
  /\ Lifecycle.heartbeat down = (Normal tt, down).
Proof.
  intros down. subst down. unfold exec. rewrite on_disconnect_run.
  unfold Lifecycle.heartbeat, Lifecycle.ping, Socket.emit, bind, gets, when,
    modify.
  destruct s as [[k|] [] cing ra el q st hb w inv]; cbn; done.
Qed.

(** ** The page *)

Lemma message_or_nonempty msg fallback :
  fallback <> "" -> message_or msg fallback <> "".
Proof. intros H. by destruct msg. Qed.

Ltac asking rs :=
  eexists; exists rs; split; [reflexivity|]; cbn;
  split; [by rewrite ?app_nil_r|cbn; lia].
Ltac asked_once :=
  eexists; eexists [_]; split; [reflexivity|]; cbn; split; [done|cbn; lia].

(** What one handler does to the page, whatever render created it: it
    completes, and it adds at most one request. *)
Lemma handle_run server seen a s :
  exists s' rs,
    ChatPageView.handle server seen a s = (Normal tt, s')
    /\ ChatPage.requests s' = ChatPage.requests s ++ rs
    /\ length rs <= 1.
Proof.
  destruct s as [ac ic er rq].
  destruct a; cbn.
  - unfold ChatPage.handleIncomingCall.
    destruct (ChatPage.sameCall _ _); by asking (@nil CallService.request).
  - by asking (@nil CallService.request).
  - by asking (@nil CallService.request).
  - by asking (@nil CallService.request).
  - by asking (@nil CallService.request).
  - unfold ChatPage.handleAcceptIncomingCall.
    destruct (ChatPage.incomingCall seen) as [incoming|].
    2:{ by asking (@nil CallService.request). }
    destruct (ChatPage.sameCall _ _) eqn:Hsame.
    { by asking (@nil CallService.request). }
    unfold try_catch, bind, CallService.acceptCall, CallService.post, modify. cbn.
    destruct (server (CallService.AcceptCall (callId incoming))) as [result|msg]; cbn.
    + destruct (success result); cbn; asked_once.
    + destruct (includes msg "not in ringing state"); cbn; asked_once.
  - unfold ChatPage.handleRejectIncomingCall.
    destruct (ChatPage.incomingCall seen) as [incoming|].
    2:{ by asking (@nil CallService.request). }
    unfold try_catch, bind, CallService.rejectCall, CallService.post, modify. cbn.
    destruct (server _) as [result|msg]; cbn; asked_once.
  - unfold ChatPage.handleCallInitiate.
    destruct (ChatPage.activeCall seen) as [active|].
    { by asking (@nil CallService.request). }
    unfold try_catch, bind, CallService.initiateCall, CallService.post, modify. cbn.
    destruct (server _) as [result|msg]; cbn.
    + destruct (success result); cbn; asked_once.
    + asked_once.
  - by asking (@nil CallService.request).
Qed.

(** X12.  No handler of the page throws, whatever the call service
    answers and whichever render created the handler: every sequence of call
    events and user actions completes normally, each handler asks the call
    service at most once, and the requests made before stay in the log. *)
Theorem page_handlers_complete_and_ask_at_most_once server trace s :
  exists asked,
    ChatPageView.handleAll server trace s
    = (Normal tt, exec (ChatPageView.handleAll server trace) s)
    /\ ChatPage.requests (exec (ChatPageView.handleAll server trace) s)
       = ChatPage.requests s ++ asked
    /\ length asked <= length trace.
Proof.
  unfold ChatPageView.handleAll, exec.
  revert s. induction trace as [|[seen a] trace IH]; intros s.
  - exists []. cbn. by rewrite app_nil_r.
  - destruct (handle_run server seen a s) as (s1 & rs & Hrun & Hrq & Hlen).
    destruct (IH s1) as (asked & Hrest & Hrq' & Hlen').
    exists (rs ++ asked). cbn [forEach].
    cbn [fst snd] in *. rewrite !(bind_normal _ _ _ _ _ Hrun).
    split; [by rewrite Hrest at 1|].
    split; [by rewrite Hrq', Hrq, app_assoc|].
    rewrite length_app. cbn. lia.
Qed.










(** X14.  The two buttons of the incoming-call notification, pressed in
    the render that shows it, dismiss it whatever the call service answers
    (a service whose results carry [success: true], as those of
    [enhancedCallService.js] do).  Rejection asks the service once and changes
    nothing else.  Acceptance either makes the incoming call the active
    call, with status [connected], or, when the service fails with a message
    that does not contain [not in ringing state], leaves the active call as
    it was and shows a non-empty error. *)
Theorem answering_an_incoming_call_dismisses_it server incoming s :
  (forall r result,
      server r = CallService.Returns result -> success result = true) ->
  ChatPage.incomingCall s = Some incoming ->
  let accepted := exec (ChatPage.handleAcceptIncomingCall server s) s in
  let rejected := exec (ChatPage.handleRejectIncomingCall server s) s in
  outcome (ChatPage.handleAcceptIncomingCall server s) s = Normal tt
  /\ outcome (ChatPage.handleRejectIncomingCall server s) s = Normal tt
  /\ ChatPage.incomingCall rejected = None
  /\ ChatPage.activeCall rejected = ChatPage.activeCall s
  /\ ChatPage.error rejected = ChatPage.error s
  /\ ChatPage.requests rejected
     = ChatPage.requests s
       ++ [CallService.RejectCall (callId incoming) "User rejected"]
  /\ ChatPage.incomingCall accepted = None
  /\ ((exists call,
         ChatPage.activeCall accepted = Some call
         /\ callId call = callId incoming
         /\ status call = Some "connected"
         /\ ChatPage.error accepted = ChatPage.error s)
      \/ (exists msg shown,
            server (CallService.AcceptCall (callId incoming))
            = CallService.Fails msg
            /\ includes msg "not in ringing state" = false
            /\ ChatPage.activeCall accepted = ChatPage.activeCall s
            /\ ChatPage.error accepted = Some shown
            /\ shown <> "")).
Proof.
  intros Hok Hinc accepted rejected. subst accepted rejected.
  unfold outcome, exec.
  unfold ChatPage.handleAcceptIncomingCall, ChatPage.handleRejectIncomingCall.
  rewrite Hinc.
  assert (Hrej :
    try_catch
      (do _r <- CallService.rejectCall server ChatPage.record
                  (callId incoming) "User rejected" ;
       ChatPage.setIncomingCall None)
      (fun _ => ChatPage.setIncomingCall None) s
    = (Normal tt,
       {| ChatPage.activeCall := ChatPage.activeCall s;
          ChatPage.incomingCall := None;
          ChatPage.error := ChatPage.error s;
          ChatPage.requests :=
            ChatPage.requests s
            ++ [CallService.RejectCall (callId incoming) "User rejected"] |})).
  { unfold try_catch, bind, CallService.rejectCall, CallService.post, modify.
    cbn. by destruct (server _). }
  rewrite Hrej. cbn [fst snd ChatPage.incomingCall ChatPage.activeCall
                     ChatPage.error ChatPage.requests].
  destruct s as [ac ic er rq]. cbn in Hinc. subst ic. cbn.
  destruct (ChatPage.sameCall ac incoming) eqn:Hsame.
  - cbn. do 7 (split; [done|]). left.
    destruct ac as [active|]; [|done]. cbn in Hsame.
    apply bool_decide_eq_true_1 in Hsame.
    eexists. cbn. done.
  - unfold try_catch, bind, CallService.acceptCall, CallService.post, modify.
    cbn. destruct (server (CallService.AcceptCall (callId incoming)))
      as [result|msg] eqn:Hserver; cbn.
    + rewrite (Hok _ _ Hserver). cbn. do 7 (split; [done|]).
      left. eexists. done.
    + destruct (includes msg "not in ringing state") eqn:Hmsg; cbn.
      * do 7 (split; [done|]). left. eexists. done.
      * do 7 (split; [done|]). right. exists msg. eexists.
        do 4 (split; [done|]). by apply message_or_nonempty.
Qed.

(** Call [c2] rings and the service cannot be reached. *)
Lemma answering_an_incoming_call_witness :
  let s :=
    {| ChatPage.activeCall := None;
       ChatPage.incomingCall := Some (Sample.call "c2" "ringing");
       ChatPage.error := None; ChatPage.requests := [] |} in
  (forall r result,
      Sample.offline r = CallService.Returns result -> success result = true)
  /\ ChatPage.incomingCall s = Some (Sample.call "c2" "ringing")
  /\ ChatPage.incomingCall
       (exec (ChatPage.handleAcceptIncomingCall Sample.offline s) s) = None.
Proof.
  intros s.
  assert (Hok : forall r result,
    Sample.offline r = CallService.Returns result -> success result = true)
    by (intros r result H; discriminate H).
  split; [exact Hok|]. split; [reflexivity|].
  exact (proj1 (proj2 (proj2 (proj2 (proj2 (proj2 (proj2
    (answering_an_incoming_call_dismisses_it Sample.offline
       (Sample.call "c2" "ringing") s Hok eq_refl)))))))).
Defined.

(** X15.  Starting a call from a render without an active call asks
    the call service once.  If the service fails, no call becomes active and
    a non-empty error is shown; if it returns, the call it returned becomes
    the active call, marked as outgoing, and the error shown before stays. *)
Theorem initiating_a_call_asks_once_and_fails_visibly
    server seen chat kind s :
  (forall r result,
      server r = CallService.Returns result -> success result = true) ->
  ChatPage.activeCall seen = None ->
  let started := exec (ChatPage.handleCallInitiate server seen chat kind) s in
  outcome (ChatPage.handleCallInitiate server seen chat kind) s = Normal tt
  /\ ChatPage.requests started
     = ChatPage.requests s ++ [CallService.InitiateCall chat kind]
  /\ ChatPage.incomingCall started = ChatPage.incomingCall s
  /\ match server (CallService.InitiateCall chat kind) with
     | CallService.Returns result =>
         ChatPage.error started = ChatPage.error s
         /\ exists call,
              ChatPage.activeCall started = Some call
              /\ callId call = callId result
              /\ status call = status result
              /\ otherUser call = otherParticipant result
              /\ isIncoming call = Some false
     | CallService.Fails msg =>
         ChatPage.activeCall started = ChatPage.activeCall s
         /\ exists shown, ChatPage.error started = Some shown /\ shown <> ""
     end.
Proof.
  intros Hok Hseen started. subst started. unfold outcome, exec.
  unfold ChatPage.handleCallInitiate. rewrite Hseen.
  unfold try_catch, bind, CallService.initiateCall, CallService.post, modify.
  destruct s as [ac ic er rq]. cbn.
  destruct (server (CallService.InitiateCall chat kind))
    as [result|msg] eqn:Hserver; cbn.
  - rewrite (Hok _ _ Hserver). cbn. do 4 (split; [done|]). eexists. done.
  - do 4 (split; [done|]). eexists. split; [done|].
    by apply message_or_nonempty.
Qed.

(** The first call of a page, to a service that accepts it. *)
Lemma initiating_a_call_witness :
  let s :=
    {| ChatPage.activeCall := None; ChatPage.incomingCall := None;
       ChatPage.error := None; ChatPage.requests := [] |} in
  (forall r result,
      Sample.accepting r = CallService.Returns result -> success result = true)
  /\ ChatPage.activeCall s = None
  /\ ChatPage.requests
       (exec (ChatPage.handleCallInitiate Sample.accepting s
                (Some "chat-1") "video") s)
     = ChatPage.requests s
       ++ [CallService.InitiateCall (Some "chat-1") "video"].
Proof.
  intros s.
  assert (Hok : forall r result,
    Sample.accepting r = CallService.Returns result -> success result = true)
    by (intros r result H; injection H as <-; reflexivity).
  split; [exact Hok|]. split; [reflexivity|].
  exact (proj1 (proj2
    (initiating_a_call_asks_once_and_fails_visibly Sample.accepting s
       (Some "chat-1") "video" s Hok eq_refl))).
Defined.

(** ** A program logic for the monad *)

Section Logic.
Context {S : Type}.
Implicit Types P I : S -> Prop.

Lemma triple_ret {A} P (a : A) Q E :
  (forall s, P s -> Q a s) -> triple P (ret a) Q E.
Proof. intros H s Hs. by apply H. Qed.

Lemma triple_throw {A} P e (Q : A -> S -> Prop) E :
  (forall s, P s -> E e s) -> triple P (throw e) Q E.
Proof. intros H s Hs. by apply H. Qed.

Lemma triple_gets {A} P (f : S -> A) Q E :
  (forall s, P s -> Q (f s) s) -> triple P (gets f) Q E.
Proof. intros H s Hs. by apply H. Qed.

Lemma triple_modify P (f : S -> S) Q E :
  (forall s, P s -> Q tt (f s)) -> triple P (modify f) Q E.
Proof. intros H s Hs. by apply H. Qed.

Lemma triple_bind {A B} P (m : M S A) (k : A -> M S B) R Q E :
  triple P m R E -> (forall a, triple (R a) (k a) Q E) ->
  triple P (bind m k) Q E.
Proof.
  intros Hm Hk s Hs. specialize (Hm s Hs). unfold bind.
  destruct (m s) as [[a| e|] s']; [|done|done].
  by apply Hk.
Qed.

Lemma triple_try_catch {A} P (m : M S A) h Q R E :
  triple P m Q R -> (forall e, triple (R e) (h e) Q E) ->
  triple P (try_catch m h) Q E.
Proof.
  intros Hm Hh s Hs. specialize (Hm s Hs). unfold try_catch.
  destruct (m s) as [[a| e|] s']; [done| |done].
  by apply Hh.
Qed.

Lemma triple_weaken {A} P P' (m : M S A) Q Q' E E' :
  triple P m Q E ->
  (forall s, P' s -> P s) ->
  (forall a s, Q a s -> Q' a s) ->
  (forall e s, E e s -> E' e s) ->
  triple P' m Q' E'.
Proof.
  intros Hm HP HQ HE s Hs. specialize (Hm s (HP s Hs)).
  destruct (m s) as [[a| e|] s']; auto.
Qed.

Lemma stable_ret {A} I (a : A) : stable I (ret a).
Proof. by apply triple_ret. Qed.

Lemma stable_throw {A} I e : stable I (throw (A := A) e).
Proof. by apply triple_throw. Qed.

Lemma stable_gets {A} I (f : S -> A) : stable I (gets f).
Proof. by apply triple_gets. Qed.

Lemma stable_modify I (f : S -> S) :
  (forall s, I s -> I (f s)) -> stable I (modify f).
Proof. intros H. by apply triple_modify. Qed.

Lemma stable_bind {A B} I (m : M S A) (k : A -> M S B) :
  stable I m -> (forall a, stable I (k a)) -> stable I (bind m k).
Proof. intros Hm Hk. eapply triple_bind; [exact Hm|]. intros a. apply Hk. Qed.

Lemma stable_try_catch {A} I (m : M S A) h :
  stable I m -> (forall e, stable I (h e)) -> stable I (try_catch m h).
Proof.
  intros Hm Hh. eapply triple_try_catch; [exact Hm|]. intros e. apply Hh.
Qed.

Lemma stable_when I c (m : M S unit) : stable I m -> stable I (when c m).
Proof. intros Hm. destruct c; [done|]. apply stable_ret. Qed.

Lemma stable_forEach {A} I (xs : list A) body :
  (forall x, stable I (body x)) -> stable I (forEach xs body).
Proof.
  intros Hbody. induction xs as [|x xs IH]; cbn [forEach].
  - apply stable_ret.
  - apply stable_bind; [apply Hbody|]. intros _. apply IH.
Qed.

Lemma may_throw {A} I (m : M S A) :
  stable I m -> triple I m (fun _ => I) (fun _ _ => True).
Proof. intros H. eapply triple_weaken; [exact H|auto..]. Qed.

Lemma triple_run {A} P (m : M S A) Q s :
  triple P m Q (fun _ _ => False) -> P s ->
  exists a, m s = (Normal a, exec m s) /\ Q a (exec m s).
Proof.
  intros Hm Hs. specialize (Hm s Hs). unfold exec.
  destruct (m s) as [[a| e|] s']; [|done|done]. by exists a.
Qed.

End Logic.

(** ** A call session, continued *)

(** *** What the negotiation leaves alone: the status and the error *)

Section Frame.
Variable Q : string -> option string -> Prop.

Lemma perform_shown rtc op : stable (shown Q) (VideoCall.perform rtc op).
Proof.
  intros s Hs. unfold VideoCall.perform, bind, gets, modify. cbn.
  destruct (VideoCall.rejects rtc _ _); by destruct s.
Qed.

Lemma note_shown op : stable (shown Q) (VideoCall.note op).
Proof. intros s Hs. by destruct s. Qed.

Lemma withPeer_shown {A} (k : VideoCall.peer -> M VideoCall.component A) :
  (forall peer, stable (shown Q) (k peer)) ->
  stable (shown Q) (VideoCall.withPeer k).
Proof.
  intros Hk. unfold VideoCall.withPeer.
  apply stable_bind; [apply stable_gets|].
  intros [peer|]; [apply Hk|apply stable_throw].
Qed.

Lemma setRemoteDescription_shown rtc sdp :
  stable (shown Q) (VideoCall.setRemoteDescription rtc sdp).
Proof.
  unfold VideoCall.setRemoteDescription.
  apply stable_bind; [apply withPeer_shown; intros; apply perform_shown|].
  intros _. apply stable_modify. intros s Hs.
  by destruct s as [? ? ? ? [peer|]].
Qed.

Lemma setLocalDescription_shown rtc sdp :
  stable (shown Q) (VideoCall.setLocalDescription rtc sdp).
Proof.
  unfold VideoCall.setLocalDescription.
  apply stable_bind; [apply withPeer_shown; intros; apply perform_shown|].
  intros _. apply stable_modify. intros s Hs.
  by destruct s as [? ? ? ? [peer|]].
Qed.

Lemma addIceCandidate_shown rtc c :
  triple (shown Q) (VideoCall.addIceCandidate rtc c)
         (fun _ => shown Q) (fun _ _ => False).
Proof.
  unfold VideoCall.addIceCandidate.
  eapply triple_try_catch; [apply perform_shown|].
  intros e. by apply triple_ret.
Qed.

Lemma setPendingSignals_shown f :
  triple (shown Q) (VideoCall.setPendingSignals f)
         (fun _ => shown Q) (fun _ _ => False).
Proof. apply triple_modify. intros s Hs. by destruct s. Qed.

Lemma queueSignal_shown kind d :
  triple (shown Q) (VideoCall.queueSignal kind d)
         (fun _ => shown Q) (fun _ _ => False).
Proof. apply setPendingSignals_shown. Qed.

Lemma post_shown server r :
  stable (shown Q) (CallService.post server VideoCall.record r).
Proof.
  intros s Hs. unfold CallService.post, bind, modify. cbn.
  destruct (server r); by destruct s.
Qed.

Lemma processQueuedIceCandidates_shown rtc seen id :
  triple (shown Q) (VideoCall.processQueuedIceCandidates rtc seen id)
         (fun _ => shown Q) (fun _ _ => False).
Proof.
  unfold VideoCall.processQueuedIceCandidates.
  eapply triple_bind with (R := fun _ => shown Q).
  - generalize (filter (fun sig => VideoCall.isIceCandidate sig = true)
                  (default [] (VideoCall.pendingSignals seen !! id))).
    intros l. induction l as [|sig l IH]; cbn [forEach].
    + by apply triple_ret.
    + eapply triple_bind with (R := fun _ => shown Q); [|intros _; exact IH].
      eapply triple_bind with (R := fun _ => shown Q);
        [by apply triple_gets|].
      intros [peer|]; [|by apply triple_ret].
      destruct (candidate (VideoCall.data sig));
        [apply addIceCandidate_shown|by apply triple_ret].
  - intros _. unfold when. destruct (0 <? _)%nat;
      [apply setPendingSignals_shown|by apply triple_ret].
Qed.

End Frame.

(** Once the remote description could not be applied, the call service is
    not asked: what [catch] does. *)
Lemma fails_with_reason msg fallback :
  fallback <> "" ->
  triple (fun _ => True)
    (VideoCall.setError (message_or msg fallback) ;;
     VideoCall.setCallStatus "failed")
    (fun _ => failedWithReason) (fun _ _ => False).
Proof.
  intros Hfb s _. cbn. split; [by destruct s|].
  exists (message_or msg fallback). split; [by destruct s|].
  by apply message_or_nonempty.
Qed.

Lemma framed {A} s0 (m : M VideoCall.component A) :
  (forall Q, stable (shown Q) m) -> stable (sameOrFailed s0) m.
Proof.
  intros H.
  exact (H (fun c e =>
    (c = VideoCall.callStatus s0 /\ e = VideoCall.error s0)
    \/ (c = "failed" /\ exists why, e = Some why /\ why <> ""))).
Qed.

Lemma framed_total {A} s0 (m : M VideoCall.component A) :
  (forall Q, triple (shown Q) m (fun _ => shown Q) (fun _ _ => False)) ->
  triple (sameOrFailed s0) m (fun _ => sameOrFailed s0) (fun _ _ => False).
Proof.
  intros H.
  exact (H (fun c e =>
    (c = VideoCall.callStatus s0 /\ e = VideoCall.error s0)
    \/ (c = "failed" /\ exists why, e = Some why /\ why <> ""))).
Qed.

Lemma weaker {A} (I : VideoCall.component -> Prop)
    (m : M VideoCall.component A) :
  triple I m (fun _ => I) (fun _ _ => False) -> stable I m.
Proof. intros H. eapply triple_weaken; [exact H|auto..]. done. Qed.


Ltac frame :=
  apply framed; intros ?;
  first
    [ apply perform_shown | apply note_shown | apply setRemoteDescription_shown
    | apply setLocalDescription_shown | apply post_shown
    | apply withPeer_shown; intros; first [apply perform_shown|apply note_shown]
    | apply stable_modify; intros [] ?; assumption ].

Ltac frame_total :=
  apply framed_total; intros ?;
  first
    [ apply addIceCandidate_shown | apply queueSignal_shown
    | apply setPendingSignals_shown | apply processQueuedIceCandidates_shown ].

Lemma setupWebRTC_sameOrFailed rtc id s0 :
  triple (sameOrFailed s0) (VideoCall.setupWebRTC rtc id)
         (fun _ => sameOrFailed s0) (fun _ _ => False).
Proof.
  unfold VideoCall.setupWebRTC.
  eapply triple_try_catch with (R := fun _ _ => True).
  - apply may_throw.
    apply stable_bind; [frame|]. intros _.
    apply stable_bind; [frame|]. intros _.
    apply stable_bind; [frame|]. intros _.
    apply stable_bind; [frame|]. intros _.
    apply stable_bind; [apply stable_forEach; intros track; frame|].
    intros _. frame.
  - intros e. eapply triple_weaken;
      [apply (fails_with_reason e "Failed to setup call"); done|done| |done].
    intros a s Hs. by right.
Qed.

Lemma handleIncomingOffer_sameOrFailed server rtc seen sdp id s0 :
  triple (sameOrFailed s0) (VideoCall.handleIncomingOffer server rtc seen sdp id)
         (fun _ => sameOrFailed s0) (fun _ _ => False).
Proof.
  unfold VideoCall.handleIncomingOffer.
  eapply triple_try_catch with (R := fun _ _ => True).
  - apply may_throw.
    apply stable_bind; [apply stable_gets|]. intros pc.
    apply stable_bind.
    { destruct pc; [apply stable_ret|].
      apply weaker, setupWebRTC_sameOrFailed. }
    intros _.
    apply stable_bind; [frame|]. intros _.
    apply stable_bind; [apply weaker; frame_total|]. intros _.
    apply stable_bind; [frame|]. intros _.
    apply stable_bind; [frame|]. intros _.
    apply stable_bind; [frame|]. intros _. apply stable_ret.
  - intros e. eapply triple_weaken;
      [apply (fails_with_reason e "Failed to handle incoming offer"); done
      |done| |done].
    intros a s Hs. by right.
Qed.












(** *** Events of other calls *)




(** *** Accepting and offering *)

(** X18.  [acceptCall] never throws and always settles the status,
    given a call service whose results carry [success: true]: afterwards the
    status is [connected], or it is [failed] and the error is a non-empty
    message.  Without a call identifier it asks neither the call service nor
    the media engine. *)
Theorem acceptCall_connects_or_fails_with_a_reason server rtc p seen s :
  (forall r result,
      server r = CallService.Returns result -> success result = true) ->
  let accepted := exec (VideoCall.acceptCall server rtc p seen) s in
  outcome (VideoCall.acceptCall server rtc p seen) s = Normal tt
  /\ (VideoCall.callStatus accepted = "connected" \/ failedWithReason accepted)
  /\ (truthy (VideoCall.currentCallId p) = false ->
      failedWithReason accepted
      /\ VideoCall.requests accepted = VideoCall.requests s
      /\ VideoCall.engine accepted = VideoCall.engine s).
Proof.
  intros Hok accepted. subst accepted.
  set (J := fun s' : VideoCall.component =>
              VideoCall.callStatus s' = "connected" \/ failedWithReason s').
  assert (Hall : triple (fun _ => True) (VideoCall.acceptCall server rtc p seen)
                   (fun _ => J) (fun _ _ => False)).
  { unfold VideoCall.acceptCall.
    eapply triple_try_catch with (R := fun _ _ => True).
    - eapply triple_bind with (R := fun _ _ => True).
      { destruct (negb _); [by apply triple_throw|by apply triple_ret]. }
      intros _.
      eapply triple_bind with (R := fun result _ => success result = true).
      { intros s1 _. unfold CallService.acceptCall, CallService.post, bind,
          modify. cbn.
        destruct (server _) as [result|msg] eqn:Hserver; [|done].
        cbn. by apply (Hok _ _ Hserver). }
      intros result s1 Hresult. rewrite Hresult. cbn [when].
      unfold bind at 1, VideoCall.setCallStatus at 1, modify at 1.
      set (s2 := VideoCall.set_callStatus "connected" s1).
      assert (Hs2 : sameOrFailed s2 s2) by (by left).
      assert (Hkeep : forall s', sameOrFailed s2 s' -> J s').
      { intros s' [[Hc _]|Hf]; [left|by right]. rewrite Hc. by destruct s1. }
      destruct (VideoCall.incomingCallData p) as [d|]; [|by apply Hkeep].
      destruct (offer d) as [sdp|]; [|by apply Hkeep].
      pose proof (handleIncomingOffer_sameOrFailed server rtc seen sdp
                    (VideoCall.currentCallId p) s2 s2 Hs2) as H.
      destruct (VideoCall.handleIncomingOffer _ _ _ _ _ s2) as [[[]| |] s3];
        [by apply Hkeep|done|done].
    - intros e. eapply triple_weaken;
        [apply (fails_with_reason e "Failed to accept call"); done|done| |done].
      intros a s' Hs'. by right. }
  destruct (triple_run _ _ _ s Hall I) as ([] & Hrun & Hpost).
  unfold outcome. rewrite Hrun. split; [done|]. split; [exact Hpost|].
  intros Hno. clear Hrun Hpost Hall.
  unfold exec, VideoCall.acceptCall, try_catch, bind. rewrite Hno. cbn.
  split; [|by destruct s]. split; [by destruct s|].
  eexists. split; [by destruct s|done].
Qed.

Lemma acceptCall_witness :
  (forall r result,
      Sample.offline r = CallService.Returns result -> success result = true)
  /\ outcome (VideoCall.acceptCall Sample.offline Sample.rtc Sample.callee
                (VideoCall.mount Sample.callee))
       (VideoCall.mount Sample.callee) = Normal tt.
Proof.
  assert (Hok : forall r result,
    Sample.offline r = CallService.Returns result -> success result = true)
    by (intros r result H; discriminate H).
  split; [exact Hok|].
  exact (proj1
    (acceptCall_connects_or_fails_with_a_reason Sample.offline Sample.rtc
       Sample.callee (VideoCall.mount Sample.callee)
       (VideoCall.mount Sample.callee) Hok)).
Defined.

(** X19.  [createOffer] never throws.  Without a peer connection it
    asks nothing of the media engine or the call service and fails the call
    with [Peer connection not initialized].  Otherwise the status becomes
    [ringing] exactly when the engine accepted [createOffer] and
    [setLocalDescription] and the call service accepted the offer; in every
    other case it becomes [failed], and the offer has reached the call
    service only if the engine had accepted it as the local description.  A
    candidate the engine gathers is sent at once under the call identifier
    of the setup, and a failure to send it changes nothing but the log of
    requests. *)
Theorem createOffer_rings_or_fails server rtc id c s :
  let offered := exec (VideoCallControls.createOffer server rtc id) s in
  let sent := CallService.Signaling id "offer" (VideoCall.createdOffer rtc) in
  let accepts :=
    negb (VideoCall.rejects rtc (VideoCall.engine s) VideoCall.CreateOffer)
    && negb (VideoCall.rejects rtc
               (VideoCall.engine s ++ [VideoCall.CreateOffer])
               (VideoCall.SetLocalDescription (VideoCall.createdOffer rtc))) in
  outcome (VideoCallControls.createOffer server rtc id) s = Normal tt
  /\ match VideoCall.peerConnectionRef s with
     | None =>
         VideoCall.callStatus offered = "failed"
         /\ VideoCall.error offered = Some "Peer connection not initialized"
         /\ VideoCall.engine offered = VideoCall.engine s
         /\ VideoCall.requests offered = VideoCall.requests s
     | Some peer =>
         if accepts then
           VideoCall.requests offered = VideoCall.requests s ++ [sent]
           /\ VideoCall.engine offered
              = VideoCall.engine s
                ++ [VideoCall.CreateOffer;
                    VideoCall.SetLocalDescription (VideoCall.createdOffer rtc)]
           /\ VideoCall.localDescription <$> VideoCall.peerConnectionRef offered
              = Some (Some (VideoCall.createdOffer rtc))
           /\ match server sent with
              | CallService.Returns _ =>
                  VideoCall.callStatus offered = "ringing"
                  /\ VideoCall.error offered = VideoCall.error s
              | CallService.Fails _ => failedWithReason offered
              end
         else
           failedWithReason offered
           /\ VideoCall.requests offered = VideoCall.requests s
     end
  /\ VideoCallControls.onicecandidate server id (Some c) s
     = (Normal tt,
        VideoCall.record (CallService.Signaling id "ice-candidate" c) s)
  /\ VideoCallControls.onicecandidate server id None s = (Normal tt, s).
Proof.
  intros offered sent accepts. subst offered sent accepts.
  unfold outcome, exec.
  split; [|split].
  - unfold VideoCallControls.createOffer, try_catch, bind, gets,
      VideoCall.withPeer, VideoCall.setLocalDescription, VideoCall.withPeer,
      VideoCall.perform, CallService.sendOffer, CallService.post, bind, gets,
      modify.
    destruct s as [cs cq er ps [peer|] ls ss di qi ws en rq ce]; cbn; [|done].
    destruct (VideoCall.rejects rtc en VideoCall.CreateOffer); cbn; [done|].
    destruct (VideoCall.rejects rtc (en ++ [VideoCall.CreateOffer]) _); cbn;
      [done|].
    by destruct (server _).
  - unfold VideoCallControls.createOffer, try_catch, bind, gets,
      VideoCall.withPeer, VideoCall.setLocalDescription, VideoCall.withPeer,
      VideoCall.perform, CallService.sendOffer, CallService.post, bind, gets,
      modify.
    destruct s as [cs cq er ps [peer|] ls ss di qi ws en rq ce]; cbn; [|done].
    destruct (VideoCall.rejects rtc en VideoCall.CreateOffer); cbn.
    { split; [|done]. split; [done|]. eexists. done. }
    destruct (VideoCall.rejects rtc (en ++ [VideoCall.CreateOffer]) _); cbn.
    { split; [|done]. split; [done|]. eexists. done. }
    rewrite <- app_assoc. cbn.
    destruct (server _) as [result|msg]; cbn; [done|].
    do 3 (split; [done|]). split; [done|]. eexists. split; [done|].
    by apply message_or_nonempty.
  - unfold VideoCallControls.onicecandidate,
      VideoCallControls.handleIceCandidate, try_catch, bind,
      CallService.sendIceCandidate, CallService.post, modify.
    split; [|done]. cbn. by destruct (server _).
Qed.

(** X20.  A callee whose camera or microphone cannot be opened still
    answers the call.  When an offer arrives at a component without a peer
    connection and the media engine rejects [getUserMedia] and nothing else,
    [setupWebRTC] fails the call, and [handleIncomingOffer] goes on all the
    same: it applies the offer, creates the answer and sends it to the call
    service.  The status stays [failed], no local stream is held, and the
    peer connection stays open. *)
Theorem answer_is_sent_after_the_media_were_refused
    server rtc seen sdp id result s :
  VideoCall.peerConnectionRef s = None ->
  (forall log, VideoCall.rejects rtc log VideoCall.GetUserMedia = true) ->
  (forall log op, op <> VideoCall.GetUserMedia ->
                  VideoCall.rejects rtc log op = false) ->
  server (CallService.Signaling id "answer" (VideoCall.createdAnswer rtc))
  = CallService.Returns result ->
  pendingCandidates seen id = [] ->
  let answered := exec (VideoCall.handleIncomingOffer server rtc seen sdp id) s in
  outcome (VideoCall.handleIncomingOffer server rtc seen sdp id) s = Normal tt
  /\ VideoCall.engine answered
     = VideoCall.engine s
       ++ [VideoCall.NewPeerConnection; VideoCall.GetUserMedia;
           VideoCall.SetRemoteDescription sdp; VideoCall.CreateAnswer;
           VideoCall.SetLocalDescription (VideoCall.createdAnswer rtc)]
  /\ VideoCall.requests answered
     = VideoCall.requests s
       ++ [CallService.Signaling id "answer" (VideoCall.createdAnswer rtc)]
  /\ failedWithReason answered
  /\ VideoCall.localStreamRef answered = VideoCall.localStreamRef s
  /\ VideoCall.isWebRTCSetupRef answered = VideoCall.isWebRTCSetupRef s
  /\ VideoCall.peerConnectionRef answered
     = Some {| VideoCall.remoteDescription := Some sdp;
               VideoCall.localDescription := Some (VideoCall.createdAnswer rtc);
               VideoCall.connectionState := "new" |}.
Proof.
  intros Hpc Hmedia Hrest Hserver Hnone answered.
  assert (Hrun : exists s',
    VideoCall.handleIncomingOffer server rtc seen sdp id s = (Normal tt, s')
    /\ VideoCall.engine s'
       = VideoCall.engine s
         ++ [VideoCall.NewPeerConnection; VideoCall.GetUserMedia;
             VideoCall.SetRemoteDescription sdp; VideoCall.CreateAnswer;
             VideoCall.SetLocalDescription (VideoCall.createdAnswer rtc)]
    /\ VideoCall.requests s'
       = VideoCall.requests s
         ++ [CallService.Signaling id "answer" (VideoCall.createdAnswer rtc)]
    /\ failedWithReason s'
    /\ VideoCall.localStreamRef s' = VideoCall.localStreamRef s
    /\ VideoCall.isWebRTCSetupRef s' = VideoCall.isWebRTCSetupRef s
    /\ VideoCall.peerConnectionRef s'
       = Some {| VideoCall.remoteDescription := Some sdp;
                 VideoCall.localDescription :=
                   Some (VideoCall.createdAnswer rtc);
                 VideoCall.connectionState := "new" |}).
  { unfold pendingCandidates in Hnone.
    unfold VideoCall.handleIncomingOffer, try_catch.
    unfold bind at 1. unfold bind at 1, gets at 1. rewrite Hpc.
    assert (Hsetup : VideoCall.setupWebRTC rtc id s
      = (Normal tt,
         VideoCall.set_callStatus "failed"
           (VideoCall.set_error (Some "media engine error")
              (VideoCall.set_peerConnectionRef
                 (Some {| VideoCall.remoteDescription := None;
                          VideoCall.localDescription := None;
                          VideoCall.connectionState := "new" |})
                 (VideoCall.set_engine
                    (VideoCall.engine s
                     ++ [VideoCall.NewPeerConnection; VideoCall.GetUserMedia])
                    s))))).
    { unfold VideoCall.setupWebRTC, try_catch, bind, VideoCall.perform, gets,
        modify. cbn.
      rewrite Hrest by discriminate. cbn. rewrite Hmedia. cbn.
      destruct s; cbn. by rewrite <- app_assoc. }
    rewrite Hsetup. clear Hsetup.
    set (s1 := VideoCall.set_callStatus _ _).
    unfold bind at 1.
    rewrite (setRemoteDescription_run rtc sdp s1 _ eq_refl)
      by (apply Hrest; discriminate).
    unfold bind at 1. unfold VideoCall.processQueuedIceCandidates.
    rewrite Hnone. cbn [forEach length Nat.ltb Nat.leb when bind ret].
    unfold bind at 1. cbn [ret].
    unfold VideoCall.setLocalDescription, VideoCall.withPeer, VideoCall.perform,
      CallService.sendAnswer, CallService.post, bind, gets, modify.
    subst s1. destruct s; cbn in *.
    repeat (rewrite Hrest by discriminate; cbn).
    rewrite Hserver. cbn. rewrite <- ?app_assoc. cbn.
    eexists. split; [reflexivity|]. cbn.
    do 2 (split; [done|]). split; [|done]. split; [done|]. eexists. done. }
  destruct Hrun as (s' & Hrun & Hfacts).
  subst answered. unfold outcome, exec. by rewrite Hrun.
Qed.

Lemma answer_is_sent_witness :
  let rtc :=
    {| VideoCall.rejects := fun _ op =>
         match op with VideoCall.GetUserMedia => true | _ => false end;
       VideoCall.userMedia := [1; 2];
       VideoCall.createdOffer := "local offer";
       VideoCall.createdAnswer := "local answer" |} in
  let s := VideoCall.mount Sample.callee in
  VideoCall.peerConnectionRef s = None
  /\ (forall log, VideoCall.rejects rtc log VideoCall.GetUserMedia = true)
  /\ (forall log op, op <> VideoCall.GetUserMedia ->
                     VideoCall.rejects rtc log op = false)
  /\ Sample.accepting
       (CallService.Signaling (Some "c1") "answer" (VideoCall.createdAnswer rtc))
     = CallService.Returns acknowledged
  /\ pendingCandidates s (Some "c1") = []
  /\ VideoCall.requests
       (exec (VideoCall.handleIncomingOffer Sample.accepting rtc s "o1"
                (Some "c1")) s)
     = VideoCall.requests s
       ++ [CallService.Signaling (Some "c1") "answer"
             (VideoCall.createdAnswer rtc)].
Proof.
  intros rtc s.
  assert (Hmedia : forall log : list VideoCall.engine_op,
            VideoCall.rejects rtc log VideoCall.GetUserMedia = true)
    by reflexivity.
  assert (Hrest : forall log op, op <> VideoCall.GetUserMedia ->
                                 VideoCall.rejects rtc log op = false)
    by (intros log op Hop; destruct op; done).
  split; [reflexivity|]. split; [exact Hmedia|]. split; [exact Hrest|].
  split; [reflexivity|]. split; [reflexivity|].
  exact (proj1 (proj2 (proj2
    (answer_is_sent_after_the_media_were_refused Sample.accepting rtc s "o1"
       (Some "c1") acknowledged s eq_refl Hmedia Hrest eq_refl eq_refl)))).
Defined.

(** *** Release *)

Lemma cleanup_released s : released (exec VideoCall.cleanup s).
Proof. unfold exec. rewrite cleanup_run. by destruct s. Qed.

Lemma released_cleanup s : released s -> VideoCall.cleanup s = (Normal tt, s).
Proof.
  intros (Hl & Hs & Hp & Hw & Hd & Hq). rewrite cleanup_run. unfold releases.
  destruct s; cbn in *. subst. cbn. by rewrite app_nil_r.
Qed.

(** X21.  [cleanup] releases once.  After one [cleanup] the component
    holds no stream, no peer connection and no timer, and a second one,
    such as that of the unmount effect after [endCall], changes nothing: no
    track is stopped twice and no closed connection is closed again. *)
Theorem cleanup_twice_is_cleanup_once server p s :
  released (exec VideoCall.cleanup s)
  /\ VideoCall.cleanup (exec VideoCall.cleanup s)
     = (Normal tt, exec VideoCall.cleanup s)
  /\ released (exec (VideoCall.endCall server p) s)
  /\ VideoCall.cleanup (exec (VideoCall.endCall server p) s)
     = (Normal tt, exec (VideoCall.endCall server p) s).
Proof.
  assert (Hend : released (exec (VideoCall.endCall server p) s)).
  { unfold exec, VideoCall.endCall.
    unfold CallService.endCall, CallService.post.
    unfold try_catch, bind, VideoCall.setCallStatus, modify.
    destruct (truthy (VideoCall.currentCallId p));
      [destruct (server (CallService.EndCall _ _))|];
      cbn -[VideoCall.cleanup VideoCall.callOnCallEnd];
      rewrite !cleanup_run;
      cbn -[VideoCall.cleanup VideoCall.callOnCallEnd];
      rewrite !callOnCallEnd_run; by destruct s. }
  split; [apply cleanup_released|].
  split; [apply released_cleanup, cleanup_released|].
  split; [exact Hend|]. by apply released_cleanup.
Qed.

(** *** The connection and its quality *)

(** X22.  Losing the connection releases nothing.  When the engine
    reports the state [failed] or [disconnected], the handler completes
    normally, sets the status [failed] and an error, and leaves the peer
    connection open, the streams running and the quality timer installed;
    a firing of that timer then does nothing, since the peer is not
    connected. *)
Theorem connection_loss_releases_nothing
    rtc js_add js_mul js_div state stats peer s :
  VideoCall.peerConnectionRef s = Some peer ->
  state = "failed" \/ state = "disconnected" ->
  let lost := exec (VideoCall.onconnectionstatechange state) s in
  outcome (VideoCall.onconnectionstatechange state) s = Normal tt
  /\ failedWithReason lost
  /\ VideoCall.engine lost = VideoCall.engine s
  /\ VideoCall.localStreamRef lost = VideoCall.localStreamRef s
  /\ VideoCall.screenStreamRef lost = VideoCall.screenStreamRef s
  /\ VideoCall.qualityCheckIntervalRef lost = VideoCall.qualityCheckIntervalRef s
  /\ (exists open, VideoCall.peerConnectionRef lost = Some open
                   /\ VideoCall.connectionState open = state)
  /\ VideoCall.qualityCheck rtc js_add js_mul js_div stats lost
     = (Normal tt, lost).
Proof.
  intros Hpc Hstate lost. subst lost. unfold outcome, exec.
  unfold VideoCall.onconnectionstatechange, VideoCall.withPeer, bind, gets,
    modify.
  destruct s as [cs cq er ps pc ls ss di qi ws en rq ce]. cbn in Hpc. subst pc.
  destruct Hstate as [-> | ->]; cbn.
  - split; [done|]. split; [split; [done|eexists; done]|].
    do 4 (split; [done|]). split; [eexists; done|done].
  - split; [done|]. split; [split; [done|eexists; done]|].
    do 4 (split; [done|]). split; [eexists; done|done].
Qed.

Lemma connection_loss_witness :
  let s :=
    VideoCall.set_qualityCheckIntervalRef (Some 5000%N)
      (VideoCall.set_peerConnectionRef (Some (Sample.negotiated "connected"))
         (VideoCall.set_callStatus "connected" Sample.ringing)) in
  VideoCall.peerConnectionRef s = Some (Sample.negotiated "connected")
  /\ ("failed" = "failed" \/ "failed" = "disconnected")
  /\ VideoCall.qualityCheckIntervalRef
       (exec (VideoCall.onconnectionstatechange "failed") s)
     = VideoCall.qualityCheckIntervalRef s.
Proof.
  intros s.
  assert (Hstate : "failed" = "failed" \/ "failed" = "disconnected")
    by (left; reflexivity).
  split; [reflexivity|]. split; [exact Hstate|].
  exact (proj1 (proj2 (proj2 (proj2 (proj2 (proj2
    (connection_loss_releases_nothing Sample.rtc exact_add exact_mul exact_div
       "failed" Sample.stats (Sample.negotiated "connected") s
       eq_refl Hstate))))))).
Defined.

Lemma measure_without_video js_add js_mul js_div stats :
  Forall (fun r => VideoCall.report_type r = "inbound-rtp" ->
                   VideoCall.mediaType r <> "video") stats ->
  (VideoCall.measure js_add js_mul js_div stats).1.1 = Fin 0.
Proof.
  intros Hall. unfold VideoCall.measure.
  generalize (Fin 0) at 2 as audio. generalize (Fin 0) at 2 as loss.
  induction Hall as [|r stats Hr _ IH]; intros loss audio; [done|].
  cbn [fold_left].
  destruct (String.eqb (VideoCall.report_type r) "inbound-rtp") eqn:Ht;
    [|apply IH].
  apply String.eqb_eq in Ht. specialize (Hr Ht).
  destruct (String.eqb (VideoCall.mediaType r) "video") eqn:Hv.
  { by apply String.eqb_eq in Hv. }
  destruct (String.eqb (VideoCall.mediaType r) "audio"); apply IH.
Qed.

(** X23.  The quality check rates a call by its incoming video only.
    When the statistics hold no [inbound-rtp] report of video, as in a call
    whose remote side sends audio only, a check on a connected peer sets the
    quality [poor], whatever the packet loss and the audio bitrate are and
    however the arithmetic rounds. *)
Theorem quality_without_incoming_video_is_poor
    rtc js_add js_mul js_div stats peer s :
  VideoCall.peerConnectionRef s = Some peer ->
  VideoCall.connectionState peer = "connected" ->
  VideoCall.rejects rtc (VideoCall.engine s) VideoCall.GetStats = false ->
  Forall (fun r => VideoCall.report_type r = "inbound-rtp" ->
                   VideoCall.mediaType r <> "video") stats ->
  let checked := exec (VideoCall.qualityCheck rtc js_add js_mul js_div stats) s in
  outcome (VideoCall.qualityCheck rtc js_add js_mul js_div stats) s = Normal tt
  /\ VideoCall.connectionQuality checked = "poor"
  /\ VideoCall.callStatus checked = VideoCall.callStatus s.
Proof.
  intros Hpc Hstate Hok Hall checked. subst checked. unfold outcome, exec.
  pose proof (measure_without_video js_add js_mul js_div stats Hall) as Hv.
  unfold VideoCall.qualityCheck, bind, gets. rewrite Hpc, Hstate. cbn.
  unfold try_catch, VideoCall.perform, bind, gets, modify. rewrite Hok.
  destruct (VideoCall.measure js_add js_mul js_div stats) as [[video audio] loss].
  cbn in Hv. subst video. cbn.
  unfold VideoCall.quality.
  replace (num_gtb (Fin 0) 500) with false by reflexivity.
  replace (num_gtb (Fin 0) 300) with false by reflexivity.
  replace (num_gtb (Fin 0) 200) with false by reflexivity.
  rewrite !andb_false_r. by destruct s.
Qed.

Lemma quality_without_incoming_video_witness :
  let s :=
    VideoCall.set_peerConnectionRef (Some (Sample.negotiated "connected"))
      (VideoCall.set_callStatus "connected" Sample.ringing) in
  let stats :=
    [{| VideoCall.report_type := "inbound-rtp"; VideoCall.mediaType := "audio";
        VideoCall.bytesReceived := Fin 100000; VideoCall.packetsLost := Fin 0;
        VideoCall.packetsReceived := Fin 1000 |}] in
  VideoCall.peerConnectionRef s = Some (Sample.negotiated "connected")
  /\ VideoCall.connectionState (Sample.negotiated "connected") = "connected"
  /\ VideoCall.rejects Sample.rtc (VideoCall.engine s) VideoCall.GetStats = false
  /\ Forall (fun r => VideoCall.report_type r = "inbound-rtp" ->
                      VideoCall.mediaType r <> "video") stats
  /\ VideoCall.connectionQuality
       (exec (VideoCall.qualityCheck Sample.rtc exact_add exact_mul exact_div
                stats) s) = "poor".
Proof.
  intros s stats.
  assert (Hall : Forall (fun r => VideoCall.report_type r = "inbound-rtp" ->
                                  VideoCall.mediaType r <> "video") stats)
    by (constructor; [intros _; discriminate|constructor]).
  split; [reflexivity|]. split; [reflexivity|]. split; [reflexivity|].
  split; [exact Hall|].
  exact (proj1 (proj2
    (quality_without_incoming_video_is_poor Sample.rtc exact_add exact_mul
       exact_div stats (Sample.negotiated "connected") s
       eq_refl eq_refl eq_refl Hall))).
Defined.

(** *** What the component displays *)

Lemma string_length_app (a b : string) :
  String.length (a +:+ b) = String.length a + String.length b.
Proof.
  induction a as [|x a IH]; [done|].
  change (S (String.length (a +:+ b)) = S (String.length a + String.length b)).
  by rewrite IH.
Qed.

Lemma string_app_inj (a b c d : string) :
  String.length c = String.length d -> a +:+ c = b +:+ d -> a = b /\ c = d.
Proof.
  revert b. induction a as [|x a IH]; intros [|y b] Hlen H.
  - done.
  - change (c = String y (b +:+ d)) in H. rewrite H in Hlen.
    simpl in Hlen. rewrite string_length_app in Hlen. lia.
  - change (String x (a +:+ c) = d) in H. rewrite <- H in Hlen.
    simpl in Hlen. rewrite string_length_app in Hlen. lia.
  - change (String x (a +:+ c) = String y (b +:+ d)) in H.
    injection H as -> H. destruct (IH b Hlen H) as [-> ->]. done.
Qed.

(** Reading a padded number back *)
Lemma padded_value (n : nat) :
  Nat.of_uint
    <$> NilEmpty.uint_of_string
          (VideoCallControls.padStart2 (VideoCallControls.toString n))
  = Some n.
Proof.
  unfold VideoCallControls.padStart2.
  pose proof (NilEmpty.usu (Nat.to_uint n)) as Hread.
  fold (VideoCallControls.toString n) in Hread.
  destruct (String.length (VideoCallControls.toString n)) as [|[|k]].
  - change (Nat.of_uint
              <$> NilEmpty.uint_of_string
                    (String "0"%char (String "0"%char (VideoCallControls.toString n)))
            = Some n).
    simpl. rewrite Hread. simpl.
    change (Some (Nat.of_uint (Nat.to_uint n)) = Some n).
    by rewrite Unsigned.of_to.
  - change (Nat.of_uint
              <$> NilEmpty.uint_of_string
                    (String "0"%char (VideoCallControls.toString n))
            = Some n).
    simpl. rewrite Hread. simpl.
    change (Some (Nat.of_uint (Nat.to_uint n)) = Some n).
    by rewrite Unsigned.of_to.
  - rewrite Hread. simpl. by rewrite Unsigned.of_to.
Qed.

Lemma padded_seconds (n : nat) :
  n < 60 ->
  String.length (VideoCallControls.padStart2 (VideoCallControls.toString n)) = 2.
Proof.
  intros Hn. do 60 (destruct n as [|n]; [reflexivity|]). lia.
Qed.

Lemma formatDuration_parts (n : nat) :
  exists mins secs,
    VideoCallControls.formatDuration n = mins +:+ String ":"%char secs
    /\ String.length secs = 2
    /\ Nat.of_uint <$> NilEmpty.uint_of_string mins = Some (n / 60)
    /\ Nat.of_uint <$> NilEmpty.uint_of_string secs = Some (n mod 60).
Proof.
  eexists. eexists. split; [reflexivity|].
  split; [apply padded_seconds, Nat.mod_upper_bound; lia|].
  split; apply padded_value.
Qed.

Lemma formatDuration_colon (n : nat) :
  String.get (String.length (VideoCallControls.formatDuration n) - 3)
             (VideoCallControls.formatDuration n) = Some ":"%char.
Proof.
  destruct (formatDuration_parts n) as (mins & secs & Hn & Hlen & _).
  rewrite Hn, string_length_app. cbn [String.length]. rewrite Hlen.
  replace (String.length mins + 3 - 3) with (0 + String.length mins) by lia.
  by rewrite <- append_correct2.
Qed.

(** X24.  The displayed duration determines the duration: two
    durations are shown alike only if they are equal.  The text has the
    minutes, a colon and two digits of seconds, so that it is none of the
    other status texts. *)
Theorem formatDuration_determines_the_duration (a b : nat) :
  (VideoCallControls.formatDuration a = VideoCallControls.formatDuration b
   <-> a = b)
  /\ (exists mins secs,
        VideoCallControls.formatDuration a = mins +:+ String ":"%char secs
        /\ String.length secs = 2)
  /\ ~ In (VideoCallControls.formatDuration a)
          ["Connecting..."; "Incoming call"; "Calling..."; "Call ended";
           "Call rejected"; "Call failed"; "Unknown status"].
Proof.
  destruct (formatDuration_parts a) as (ma & sa & Ha & Hla & Hma & Hsa).
  destruct (formatDuration_parts b) as (mb & sb & Hb & Hlb & Hmb & Hsb).
  split; [split; [|by intros ->]|split; [by exists ma, sa|]].
  - intros H. rewrite Ha, Hb in H.
    apply string_app_inj in H as [<- H]; [|cbn; by rewrite Hla, Hlb].
    injection H as <-.
    assert (Hm : a / 60 = b / 60) by congruence.
    assert (Hs : a mod 60 = b mod 60) by congruence.
    pose proof (Nat.div_mod_eq a 60) as Hdiva.
    pose proof (Nat.div_mod_eq b 60) as Hdivb.
    rewrite Hm, Hs in Hdiva. congruence.
  - pose proof (formatDuration_colon a) as Hcolon.
    intros Hin. cbn [In] in Hin.
    destruct Hin as [H|[H|[H|[H|[H|[H|[H|[]]]]]]]];
      rewrite <- H in Hcolon; discriminate Hcolon.
Qed.

Ltac peel_status k H1 H2 H3 H4 H5 H6 :=
  destruct k as [|[[] [] [] [] [] [] [] []] k];
  try reflexivity;
  try solve [exfalso; apply H1; reflexivity];
  try solve [exfalso; apply H2; reflexivity];
  try solve [exfalso; apply H3; reflexivity];
  try solve [exfalso; apply H4; reflexivity];
  try solve [exfalso; apply H5; reflexivity];
  try solve [exfalso; apply H6; reflexivity].

Lemma unlisted_status {A} (k : string) (a b c d e f g : A) :
  ~ In k listedStatuses ->
  match k with
  | "initiating" => a
  | "ringing" => b
  | "connected" => c
  | "ended" => d
  | "rejected" => e
  | "failed" => f
  | _ => g
  end = g.
Proof.
  intros Hk.
  assert (H1 : k <> "initiating") by (intros ->; apply Hk; cbn; tauto).
  assert (H2 : k <> "ringing") by (intros ->; apply Hk; cbn; tauto).
  assert (H3 : k <> "connected") by (intros ->; apply Hk; cbn; tauto).
  assert (H4 : k <> "ended") by (intros ->; apply Hk; cbn; tauto).
  assert (H5 : k <> "rejected") by (intros ->; apply Hk; cbn; tauto).
  assert (H6 : k <> "failed") by (intros ->; apply Hk; cbn; tauto).
  clear Hk.
  do 11 (try peel_status k H1 H2 H3 H4 H5 H6).
Qed.

(** X25.  The status line reads [Unknown status] exactly when the
    status is none of the six for which [getStatusText] has a text.  The
    status with which the component of an incoming call mounts, [incoming],
    is not one of them: until the status changes, the callee reads
    [Unknown status]. *)
Theorem status_text_is_unknown_for_an_unlisted_status
    isIncoming callDuration id callData parentCallback s :
  (VideoCallControls.getStatusText isIncoming callDuration s = "Unknown status"
   <-> ~ In (VideoCall.callStatus s) listedStatuses)
  /\ VideoCallControls.getStatusText isIncoming callDuration
       (VideoCall.mount
          {| VideoCall.propCallId := id; VideoCall.incomingCallData := callData;
             VideoCall.isIncomingProp := true;
             VideoCall.onCallEnd := parentCallback |})
     = "Unknown status".
Proof.
  split; [|reflexivity].
  unfold VideoCallControls.getStatusText. split.
  - intros Htext Hin. cbn [In listedStatuses] in Hin.
    destruct Hin as [H|[H|[H|[H|[H|[H|[]]]]]]]; rewrite <- H in Htext;
      try discriminate Htext.
    + by destruct isIncoming.
    + pose proof (formatDuration_colon callDuration) as Hcolon.
      cbn in Htext. rewrite Htext in Hcolon. discriminate Hcolon.
  - apply unlisted_status.
Qed.

(** X26.  Every quality the check can set has a colour of its own,
    and none of them is the grey of an unknown quality: the colours of two
    measurements agree exactly when their tiers do. *)
Theorem quality_colours_tell_the_tiers_apart loss bitrate loss' bitrate' s :
  let coloured l b :=
    VideoCallControls.getConnectionQualityColor
      (VideoCall.set_connectionQuality (VideoCall.quality l b) s) in
  (coloured loss bitrate = coloured loss' bitrate'
   <-> VideoCall.quality loss bitrate = VideoCall.quality loss' bitrate')
  /\ In (coloured loss bitrate)
        ["text-green-500"; "text-green-400"; "text-yellow-500"; "text-red-500"].
Proof.
  intros coloured. subst coloured.
  unfold VideoCallControls.getConnectionQualityColor, VideoCall.quality.
  destruct s. cbn [VideoCall.set_connectionQuality VideoCall.connectionQuality].
  destruct (num_ltb loss 1 && num_gtb bitrate 500),
    (num_ltb loss 3 && num_gtb bitrate 300),
    (num_ltb loss 5 && num_gtb bitrate 200),
    (num_ltb loss' 1 && num_gtb bitrate' 500),
    (num_ltb loss' 3 && num_gtb bitrate' 300),
    (num_ltb loss' 5 && num_gtb bitrate' 200);
    (split; [split; intros H; first [reflexivity|discriminate H]
            |cbn; tauto]).
Qed.
